(** * Pelm SDK (src/index.ts): a shallow embedding and its specification

    The SDK is a thin layer of HTTP calls around api.pelm.com.  The model has
    four layers:

    - JavaScript values as the code meets them: IEEE-754 doubles ([Number]),
      parsed JSON bodies ([json]), and [undefined] ([JSValue]);
    - asynchronous code as a tree of [fetch] interactions ([prog]), run either
      alone against a sequence of outcomes ([run]) or as the tasks joined by
      [Promise.all] against an arrival order ([run_joined]);
    - the functions of index.ts, one definition each, under their own names;
    - the properties of the specification, stated over those definitions. *)

From Stdlib Require Import ZArith QArith String Ascii SpecFloat.
From stdpp Require Import base option list strings gmap.

#[local] Set Warnings "-register-all".

(* ===================================================================== *)
(** ** JavaScript numbers *)
(* ===================================================================== *)

(** A JavaScript number is an IEEE-754 binary64 value.  [spec_float] with
    precision 53 and maximal exponent 1024 is that format, with its
    arithmetic defined inside the logic. *)
Module Number.

#[local] Open Scope Z_scope.

Definition prec : Z := 53.
Definition emax : Z := 1024.

Definition t : Type := spec_float.

Definition of_Z (z : Z) : t := binary_normalize prec emax z 0 false.

Definition zero : t := S754_zero false.
Definition NaN : t := S754_nan.

Definition add (x y : t) : t := SFadd prec emax x y.
Definition div (x y : t) : t := SFdiv prec emax x y.

Definition is_nan (x : t) : bool :=
  match x with S754_nan => true | _ => false end.

Definition is_zero (x : t) : bool :=
  match x with S754_zero _ => true | _ => false end.

(** ToBoolean on a number: [+0], [-0] and [NaN] are falsy. *)
Definition truthy (x : t) : bool := negb (is_zero x || is_nan x).

(** *** Number::toString (radix 10)

    For a finite non-zero double the digits are those of the shortest
    decimal [s * 10^(n-k)] (with [k] digits in [s]) that rounds back to
    the double; the result is laid out by the ranges of [n] that
    ECMAScript prescribes.  All comparisons are exact, over [Z]. *)

(** [a * 10^p] compared with [b * 2^q]. *)
Definition scaled_compare (a p b q : Z) : comparison :=
  Z.compare (a * 10 ^ Z.max p 0 * 2 ^ Z.max (- q) 0)
            (b * 2 ^ Z.max q 0 * 10 ^ Z.max (- p) 0).

Definition digit_char (d : Z) : ascii := ascii_of_nat (48 + Z.to_nat d).

Fixpoint decimal_go (fuel : nat) (z : Z) (acc : string) : string :=
  match fuel with
  | O => acc
  | S fuel' =>
      let acc' := String (digit_char (z mod 10)) acc in
      if z <? 10 then acc' else decimal_go fuel' (z / 10) acc'
  end.

(** Decimal digits of a non-negative integer below [10^400]. *)
Definition decimal (z : Z) : string := decimal_go 400 z EmptyString.

Fixpoint zeros (n : nat) : string :=
  match n with
  | O => EmptyString
  | S n' => String "0" (zeros n')
  end.

Fixpoint raise_exponent (fuel : nat) (m e n : Z) : Z :=
  match fuel with
  | O => n
  | S fuel' =>
      match scaled_compare 1 n m e with
      | Gt => n
      | _ => raise_exponent fuel' m e (n + 1)
      end
  end.

Fixpoint lower_exponent (fuel : nat) (m e n : Z) : Z :=
  match fuel with
  | O => n
  | S fuel' =>
      match scaled_compare 1 (n - 1) m e with
      | Gt => lower_exponent fuel' m e (n - 1)
      | _ => n
      end
  end.

(** The [n] with [10^(n-1) <= m * 2^e < 10^n]: an estimate from the binary
    logarithm, corrected by exact comparisons. *)
Definition decimal_exponent (m e : Z) : Z :=
  let estimate := (Z.log2 m + e) * 30103 / 100000 in
  lower_exponent 4 m e (raise_exponent 4 m e estimate).

(** Does the decimal [s * 10^q] round (to nearest, ties to even) to the
    double [m * 2^e]?  The rounding interval of the double is measured in
    units of [2^(e-2)]; it is narrower below a power of two. *)
Definition rounds_to (m e s q : Z) : bool :=
  let below := if (m =? 2 ^ 52) && (-1074 <? e) then 1 else 2 in
  let closed := Z.even m in
  let above_low :=
    match scaled_compare s q (4 * m - below) (e - 2) with
    | Gt => true
    | Eq => closed
    | Lt => false
    end in
  let below_high :=
    match scaled_compare s q (4 * m + 2) (e - 2) with
    | Lt => true
    | Eq => closed
    | Gt => false
    end in
  above_low && below_high.

(** The shortest digits [(s, k, n)], trying [k = 1, 2, ...]; of two
    candidates with [k] digits the one nearer to the double is taken, and
    the even one when the double lies exactly between the two. *)
Fixpoint shortest (fuel : nat) (m e n k : Z) : Z * Z * Z :=
  let q := n - k in
  let num := m * 2 ^ Z.max e 0 * 10 ^ Z.max (- q) 0 in
  let den := 2 ^ Z.max (- e) 0 * 10 ^ Z.max q 0 in
  let lo := num / den in
  let hi := lo + 1 in
  let pick (s : Z) := if s =? 10 ^ k then (1, 1, n + 1) else (s, k, n) in
  match fuel with
  | O => pick lo
  | S fuel' =>
      match rounds_to m e lo q, rounds_to m e hi q with
      | true, true =>
          match Z.compare (2 * num) ((2 * lo + 1) * den) with
          | Lt => pick lo
          | Gt => pick hi
          | Eq => if Z.even lo then pick lo else pick hi
          end
      | true, false => pick lo
      | false, true => pick hi
      | false, false => shortest fuel' m e n (k + 1)
      end
  end.

Definition render (s k n : Z) : string :=
  let ds := decimal s in
  if (k <=? n) && (n <=? 21) then ds +:+ zeros (Z.to_nat (n - k))
  else if (0 <? n) && (n <=? 21) then
    substring 0 (Z.to_nat n) ds +:+ "." +:+
    substring (Z.to_nat n) (Z.to_nat (k - n)) ds
  else if (-6 <? n) && (n <=? 0) then
    "0." +:+ zeros (Z.to_nat (- n)) +:+ ds
  else
    let sign := if 0 <=? n - 1 then "+" else "-" in
    let expo := "e" +:+ sign +:+ decimal (Z.abs (n - 1)) in
    if k =? 1 then ds +:+ expo
    else substring 0 1 ds +:+ "." +:+
         substring 1 (Z.to_nat (k - 1)) ds +:+ expo.

Definition finite_toString (m : positive) (e : Z) : string :=
  let n := decimal_exponent (Z.pos m) e in
  let '(s, k, n') := shortest 17 (Z.pos m) e n 1 in
  render s k n'.

Definition toString (x : t) : string :=
  match x with
  | S754_nan => "NaN"
  | S754_zero _ => "0"
  | S754_infinity false => "Infinity"
  | S754_infinity true => "-Infinity"
  | S754_finite false m e => finite_toString m e
  | S754_finite true m e => "-" +:+ finite_toString m e
  end.

End Number.

Abbreviation number := Number.t.

(* ===================================================================== *)
(** ** JSON bodies and JavaScript values *)
(* ===================================================================== *)

(** What [response.json()] can produce. *)
Inductive json : Type :=
| JNull
| JBool (b : bool)
| JNumber (x : number)
| JString (s : string)
| JArray (items : list json)
| JObject (fields : gmap string json).

(** A value of type [any]: [undefined] or a JSON value. *)
Inductive JSValue : Type :=
| undefined
| JsVal (j : json).

Definition str (s : string) : JSValue := JsVal (JString s).

(** Exceptions and promise rejections. *)
Inductive error : Type :=
| TypeError (message : string)
| FetchError (message : string)
| SyntaxError (message : string).

(** ToString on a JSON value, as a template literal applies it.  An object
    is rendered by the [toString] it inherits, unless an own property of
    that name hides it: a parsed value is never callable, and the conversion
    then throws.  An array joins the renderings of its elements. *)
Fixpoint json_ToString (j : json) : error + string :=
  match j with
  | JNull => inr "null"
  | JBool true => inr "true"
  | JBool false => inr "false"
  | JNumber x => inr (Number.toString x)
  | JString s => inr s
  | JArray items =>
      let element (x : json) :=
        match x with
        | JNull => inr EmptyString
        | _ => json_ToString x
        end in
      (fix join (l : list json) : error + string :=
         match l with
         | [] => inr EmptyString
         | [x] => element x
         | x :: rest =>
             match element x with
             | inl e => inl e
             | inr first =>
                 match join rest with
                 | inl e => inl e
                 | inr others => inr (first +:+ "," +:+ others)
                 end
             end
         end) items
  | JObject fields =>
      match fields !! "toString" with
      | Some _ => inl (TypeError "Cannot convert object to primitive value")
      | None => inr "[object Object]"
      end
  end.

Definition ToString (v : JSValue) : error + string :=
  match v with
  | undefined => inr "undefined"
  | JsVal j => json_ToString j
  end.

(** The own property [key] of a parsed body, if it has one. *)
Definition own_property (key : string) (j : json) : option json :=
  match j with
  | JObject fields => fields !! key
  | _ => None
  end.

(** [response.key] for one of the three token fields: reading a property of
    [null] throws; an object without the property, and any primitive or
    array, gives [undefined] (none of the three names is inherited). *)
Definition property (key : string) (j : json) : error + JSValue :=
  match j with
  | JNull =>
      inl (TypeError ("Cannot read properties of null (reading '" +:+ key +:+ "')"))
  | _ =>
      inr (match own_property key j with
           | Some v => JsVal v
           | None => undefined
           end)
  end.

(* ===================================================================== *)
(** ** HTTP exchanges *)
(* ===================================================================== *)

Inductive Method : Type := GET | POST.

(** The entries appended to a [FormData], in order. *)
Definition FormData : Type := list (string * JSValue).

(** [formData.append(key, value)] for a string value.  What the form-data
    library does with a value that is not a string is the library's affair
    and differs between its versions: it is no part of this model
    ([None]). *)
Definition FormData_append (formData : FormData) (key : string) (value : JSValue)
  : option FormData :=
  match value with
  | JsVal (JString _) => Some (formData ++ [(key, value)])
  | _ => None
  end.

(** An object literal passed as [headers]: its entries in source order. *)
Definition Headers : Type := list (string * JSValue).

(** What one call of [fetch] puts on the wire. *)
Record request : Type := {
  req_method : Method;
  req_url : string;
  req_headers : Headers;
  req_body : option FormData;
}.

(** The response object: the status (which the SDK never reads) and what
    [response.json()] settles to. *)
Record Response : Type := {
  status : nat;
  json_body : error + json;
}.

(** How a [fetch] promise settles. *)
Inductive fetch_outcome : Type :=
| Rejects (e : error)
| Resolves (response : Response).

(** The parsed body an exchange ends with, or the error it raises. *)
Definition outcome_json (o : fetch_outcome) : error + json :=
  match o with
  | Rejects e => inl e
  | Resolves response => json_body response
  end.

(** HTTP field names are case-insensitive. *)
Definition lower_ascii (c : ascii) : ascii :=
  let n := nat_of_ascii c in
  if (65 <=? n) && (n <=? 90) then ascii_of_nat (n + 32) else c.

Fixpoint lower (s : string) : string :=
  match s with
  | EmptyString => EmptyString
  | String c s' => String (lower_ascii c) (lower s')
  end.

Definition header (name : string) (r : request) : option JSValue :=
  snd <$> find (fun entry => String.eqb (lower (fst entry)) (lower name))
               (req_headers r).

(** The text after the first occurrence of [c], if [c] occurs. *)
Fixpoint after_first (c : ascii) (s : string) : option string :=
  match s with
  | EmptyString => None
  | String a s' => if Ascii.eqb a c then Some s' else after_first c s'
  end.

Fixpoint before_first (c : ascii) (s : string) : string :=
  match s with
  | EmptyString => EmptyString
  | String a s' => if Ascii.eqb a c then EmptyString else String a (before_first c s')
  end.

Fixpoint split_on (c : ascii) (s : string) : list string :=
  match s with
  | EmptyString => [EmptyString]
  | String a s' =>
      if Ascii.eqb a c then EmptyString :: split_on c s'
      else match split_on c s' with
           | w :: ws => String a w :: ws
           | [] => [String a EmptyString]
           end
  end.

(** The [name=value] pairs of the query string of a URL. *)
Definition query_fields (url : string) : list (string * string) :=
  match after_first "?" url with
  | None => []
  | Some q =>
      map (fun pair => (before_first "=" pair,
                        default EmptyString (after_first "=" pair)))
          (split_on "&" q)
  end.

(* ===================================================================== *)
(** ** Asynchronous code *)
(* ===================================================================== *)

(** An [async] function body: it returns, throws, or awaits a [fetch] and
    goes on with however that settles; or it hands to a library a value on
    which the behaviour of the library is not part of this model, and what
    follows is left open ([External]). *)
Inductive prog (A : Type) : Type :=
| Ret (a : A)
| Throw (e : error)
| Fetch (req : request) (k : fetch_outcome -> prog A)
| External (library : string).

Arguments Ret {A} a.
Arguments Throw {A} e.
Arguments Fetch {A} req k.
Arguments External {A} library.

Fixpoint bind {A B : Type} (p : prog A) (f : A -> prog B) : prog B :=
  match p with
  | Ret a => f a
  | Throw e => Throw e
  | Fetch req k => Fetch req (fun o => bind (k o) f)
  | External library => External library
  end.

Declare Scope prog_scope.
Delimit Scope prog_scope with prog.
Notation "x <- p ;; q" := (bind p (fun x => q))
  (at level 100, p at next level, right associativity) : prog_scope.
Open Scope prog_scope.

Definition lift {A : Type} (r : error + A) : prog A :=
  match r with
  | inl e => Throw e
  | inr a => Ret a
  end.

(** How a promise stands; [Unknown] where the model leaves it open. *)
Inductive settled (A : Type) : Type :=
| Pending
| Fulfilled (a : A)
| Rejected (e : error)
| Unknown.

Arguments Pending {A}.
Arguments Fulfilled {A} a.
Arguments Rejected {A} e.
Arguments Unknown {A}.

(** One task run against the outcomes of its successive fetches: the
    requests it issued, and how its promise stands when the outcomes are
    used up. *)
Fixpoint run {A : Type} (p : prog A) (outcomes : list fetch_outcome)
  : list request * settled A :=
  match p with
  | Ret a => ([], Fulfilled a)
  | Throw e => ([], Rejected e)
  | External _ => ([], Unknown)
  | Fetch req k =>
      match outcomes with
      | [] => ([req], Pending)
      | o :: outcomes' =>
          let '(issued, result) := run (k o) outcomes' in
          (req :: issued, result)
      end
  end.

(** *** Promise.all

    The tasks are started in index order, each running up to its first
    [fetch]; then outcomes arrive one at a time, each for the pending fetch
    of the task it names, in whatever order the network delivers them. *)

Inductive joined (A : Type) : Type :=
| Promise_all (tasks : list (prog A)).

Arguments Promise_all {A} tasks.

Definition pending_request {A : Type} (t : prog A) : list request :=
  match t with
  | Fetch req _ => [req]
  | _ => []
  end.

Fixpoint first_rejection {A : Type} (tasks : list (prog A)) : option error :=
  match tasks with
  | [] => None
  | Throw e :: _ => Some e
  | _ :: tasks' => first_rejection tasks'
  end.

Fixpoint values {A : Type} (tasks : list (prog A)) : option (list A) :=
  match tasks with
  | [] => Some []
  | Ret a :: tasks' => cons a <$> values tasks'
  | _ :: _ => None
  end.

(** [Promise.all] rejects as soon as one task has rejected, fulfils with the
    values in index order once every task has fulfilled, and is pending
    otherwise.  [join] looks at the tasks after each arrival, and an arrival
    resumes one task: the rejection found is the first one in time.  (Tasks
    that threw before their first fetch are subscribed to in index order, so
    there too the first in the list is the one that counts.) *)
Definition Promise_all_state {A : Type} (tasks : list (prog A)) : settled (list A) :=
  match first_rejection tasks with
  | Some e => Rejected e
  | None =>
      match values tasks with
      | Some vs => Fulfilled vs
      | None => Pending
      end
  end.

(** The outcome [o] arrives for task [i]: the task resumes and runs to its
    next fetch or to its end.  An arrival for a task that awaits nothing, or
    for no task, changes nothing. *)
Definition deliver {A : Type} (i : nat) (o : fetch_outcome) (tasks : list (prog A))
  : list request * list (prog A) :=
  match tasks !! i with
  | Some (Fetch _ k) => (pending_request (k o), <[i := k o]> tasks)
  | _ => ([], tasks)
  end.

(** The arrivals are taken one by one while the joined promise is pending:
    the requests that the resumed tasks issue, and how the promise settles
    (or [Pending], when the arrivals are used up first). *)
Fixpoint join {A : Type} (tasks : list (prog A)) (arrivals : list (nat * fetch_outcome))
  : list request * settled (list A) :=
  match Promise_all_state tasks with
  | Pending =>
      match arrivals with
      | [] => ([], Pending)
      | (i, o) :: arrivals' =>
          let '(new, tasks') := deliver i o tasks in
          let '(later, result) := join tasks' arrivals' in
          (new ++ later, result)
      end
  | result => ([], result)
  end.

(** The requests issued until the joined promise settles, and how it
    settles. *)
Definition run_joined {A : Type} (j : joined A) (arrivals : list (nat * fetch_outcome))
  : list request * settled (list A) :=
  match j with
  | Promise_all tasks =>
      let '(later, result) := join tasks arrivals in
      (flat_map pending_request tasks ++ later, result)
  end.


(* ===================================================================== *)
(** ** index.ts *)
(* ===================================================================== *)

(** [let pelmClientId: string; let pelmSecret: string;] -- module-level
    variables, [undefined] until the factory assigns them.  Every function
    below reads them when it builds its headers, so it takes their current
    contents as [g]. *)
Record Globals : Type := {
  pelmClientId : JSValue;
  pelmSecret : JSValue;
}.

Definition initial_globals : Globals :=
  {| pelmClientId := undefined; pelmSecret := undefined |}.

(** A [Date] object, read only through [getTime()]: its time value, [NaN]
    for an invalid date. *)
Record Date : Type := {
  getTime : number;
}.

Module PelmTypes.

Record PelmUsageInterval : Type := {
  start : Date;
  end_ : Date;
  usage : number;
  ghg_emissions : number;
}.

Inductive UsageUnit : Type := kwh | mwh | therm.

Inductive GasUsageUnit : Type := gas_therm.

Inductive GhgEmissionUnit : Type := kg_co2e_per_kwh | kg_co2.

Record AccountsResponse : Type := {
  id : string;
  account_number : string;
  address : string;
  available_meter_types : list string;
  usage_unit : UsageUnit;
  gas_usage_unit : GasUsageUnit;
  ghg_emission_unit : GhgEmissionUnit;
}.

Record IntervalsResponse : Type := {
  utility : string;
  account : AccountsResponse;
  intervals : list PelmUsageInterval;
}.

End PelmTypes.

(** [fetch(url, init)]: one request; the promise resolves with the response
    or rejects. *)
Definition fetch (url : string) (method : Method) (headers : Headers)
    (body : option FormData) : prog Response :=
  Fetch {| req_method := method; req_url := url;
           req_headers := headers; req_body := body |}
        (fun o => match o with
                  | Rejects e => Throw e
                  | Resolves response => Ret response
                  end).

(** [await response.json()] *)
Definition response_json (response : Response) : prog json :=
  lift (json_body response).

(** [new FormData()] filled with the entries of [body], in their order. *)
Definition form_of (body : list (string * JSValue)) : option FormData :=
  fold_left (fun formData '(key, value) =>
               match formData with
               | Some entries => FormData_append entries key value
               | None => None
               end)
            body (Some []).

Definition postRequest (url : string) (body : list (string * JSValue))
    (headers : Headers) : prog json :=
  match form_of body with
  | Some formData =>
      response <- fetch url POST headers (Some formData) ;;
      response_json response
  | None => External "form-data"
  end.

Definition getRequest (url : string) (headers : Headers) : prog json :=
  response <- fetch url GET headers None ;;
  response_json response.

Definition getConnectToken (g : Globals) (pelmUserId : string) : prog JSValue :=
  response <- postRequest "https://api.pelm.com/auth/connect-token"
    [("user_id", str pelmUserId)]
    [("accept", str "application/json");
     ("pelm-client-id", pelmClientId g);
     ("pelm-secret", pelmSecret g)] ;;
  token <- lift (property "connect_token" response) ;;
  Ret token.

(** The template literal [`Bearer ${connectToken}`] is evaluated, and may
    throw, while the arguments of [postRequest] are built: before the call. *)
Definition getAuthCode (utilityProviderCode username password : string)
    (connectToken : JSValue) : prog JSValue :=
  bearer <- lift (ToString connectToken) ;;
  response <- postRequest "https://api.pelm.com/connect"
    [("utility_id", str utilityProviderCode);
     ("username", str username);
     ("password", str password)]
    [("accept", str "application/json");
     ("authorization", str ("Bearer " +:+ bearer))] ;;
  authCode <- lift (property "authorization_code" response) ;;
  Ret authCode.

Definition getAccessToken (g : Globals) (authCode : JSValue) : prog JSValue :=
  response <- postRequest "https://api.pelm.com/auth/token"
    [("code", authCode)]
    [("accept", str "application/json");
     ("pelm-client-id", pelmClientId g);
     ("pelm-secret", pelmSecret g)] ;;
  accessToken <- lift (property "access_token" response) ;;
  Ret accessToken.

Definition getOrCreatePelmToken (g : Globals)
    (providerCode pelmUserId username password : string) : prog JSValue :=
  connectToken <- getConnectToken g pelmUserId ;;
  authCode <- getAuthCode providerCode username password connectToken ;;
  accessToken <- getAccessToken g authCode ;;
  Ret accessToken.

Definition getPelmAccounts (g : Globals) (pelmAccessToken : string) : prog json :=
  response <- getRequest "https://api.pelm.com/accounts"
    [("Authorization", str ("Bearer " +:+ pelmAccessToken));
     ("Pelm-Client-Id", pelmClientId g);
     ("Pelm-Secret", pelmSecret g)] ;;
  Ret response.

Definition getBillsPelm (g : Globals) (pelmAccessToken : string) : prog json :=
  response <- getRequest "https://api.pelm.com/bills"
    [("Authorization", str ("Bearer " +:+ pelmAccessToken));
     ("Pelm-Client-Id", pelmClientId g);
     ("Pelm-Secret", pelmSecret g)] ;;
  Ret response.

(** [pelmBillIds.map(async (billId) => ...)] starts one task per id, in the
    order of the ids; [await Promise.all(...)] joins them and the array of
    their values is returned as it is. *)
Definition getBillPdfs (g : Globals) (pelmAccessToken : string)
    (pelmBillIds : list string) : joined json :=
  Promise_all
    (map (fun billId =>
            response <- getRequest
              ("https://api.pelm.com/bills/" +:+ billId +:+ "/pdf")
              [("accept", str "application/pdf");
               ("authorization", str ("Bearer " +:+ pelmAccessToken));
               ("pelm-client-id", pelmClientId g);
               ("pelm-secret", pelmSecret g)] ;;
            Ret response)
         pelmBillIds).

(** [date?.getTime() ? date.getTime() / 1000 : 0] *)
Definition unix_seconds (date : option Date) : number :=
  match getTime <$> date with
  | Some time => if Number.truthy time
                 then Number.div time (Number.of_Z 1000%Z)
                 else Number.of_Z 0%Z
  | None => Number.of_Z 0%Z
  end.

Definition getPelmIntervals (g : Globals) (pelmAccountId pelmToken : string)
    (startDate endDate : option Date) : prog json :=
  let start := unix_seconds startDate in
  let end_ := unix_seconds endDate in
  getRequest "https://api.pelm.com/intervals"
    [("account_id", str pelmAccountId);
     ("start_date", str (Number.toString start));
     ("end_date", str (Number.toString end_));
     ("authorization", str ("Bearer " +:+ pelmToken));
     ("pelm-client-id", pelmClientId g);
     ("pelm-secret", pelmSecret g)].

Record TotalUandE : Type := {
  totalUsage : number;
  totalEmissions : number;
}.

(** [array.reduce(callback, initialValue)] *)
Definition Array_reduce {A B : Type} (callback : B -> A -> B) (initialValue : B)
    (array : list A) : B :=
  fold_left callback array initialValue.

Definition totalUsageIntervals (accountsAndIntervals : PelmTypes.IntervalsResponse)
  : prog TotalUandE :=
  let totalUsage :=
    Array_reduce
      (fun accumulator interval => Number.add accumulator (PelmTypes.usage interval))
      (Number.of_Z 0%Z) (PelmTypes.intervals accountsAndIntervals) in
  let totalEmissions :=
    Array_reduce
      (fun accumulator interval =>
         Number.add accumulator (PelmTypes.ghg_emissions interval))
      (Number.of_Z 0%Z) (PelmTypes.intervals accountsAndIntervals) in
  Ret {| totalUsage := totalUsage; totalEmissions := totalEmissions |}.

(** The object the factory returns.  Its members are the module's functions
    themselves: they read the module variables when they are called. *)
Module SDK.
Record t : Type := {
  getConnectToken : Globals -> string -> prog JSValue;
  getAuthCode : string -> string -> string -> JSValue -> prog JSValue;
  getAccessToken : Globals -> JSValue -> prog JSValue;
  getBillPdfs : Globals -> string -> list string -> joined json;
  getBillsPelm : Globals -> string -> prog json;
  getPelmAccounts : Globals -> string -> prog json;
  getPelmIntervals :
    Globals -> string -> string -> option Date -> option Date -> prog json;
  totalUsageIntervals : PelmTypes.IntervalsResponse -> prog TotalUandE;
  getOrCreatePelmToken :
    Globals -> string -> string -> string -> string -> prog JSValue;
}.
End SDK.

(** The factory assigns both module variables and returns the bundle. *)
Definition PelmSDK (apiClientId apiSecret : string) (g : Globals)
  : Globals * SDK.t :=
  ({| pelmClientId := str apiClientId; pelmSecret := str apiSecret |},
   {| SDK.getConnectToken := getConnectToken;
      SDK.getAuthCode := getAuthCode;
      SDK.getAccessToken := getAccessToken;
      SDK.getBillPdfs := getBillPdfs;
      SDK.getBillsPelm := getBillsPelm;
      SDK.getPelmAccounts := getPelmAccounts;
      SDK.getPelmIntervals := getPelmIntervals;
      SDK.totalUsageIntervals := totalUsageIntervals;
      SDK.getOrCreatePelmToken := getOrCreatePelmToken |}).

(* ===================================================================== *)
(** ** The vocabulary of the specification *)
(* ===================================================================== *)

(** "sum(x for x in xs)": the terms are added in list order, starting
    from 0, in double arithmetic. *)
Fixpoint sum_from (start : number) (xs : list number) : number :=
  match xs with
  | [] => start
  | x :: xs' => sum_from (Number.add start x) xs'
  end.

Definition sum (xs : list number) : number := sum_from (Number.of_Z 0%Z) xs.

(** The real number that a finite double stands for. *)
Definition exact (x : number) : option Q :=
  match x with
  | S754_zero _ => Some 0%Q
  | S754_finite s m e =>
      Some ((if s then - (1) else 1) * inject_Z (Z.pos m) * Qpower 2 e)%Q
  | _ => None
  end.

(** The sum of the numbers of a list in exact arithmetic: the sum as
    mathematics has it, whatever the order of the terms. *)
Fixpoint exact_sum (xs : list number) : option Q :=
  match xs with
  | [] => Some 0%Q
  | x :: xs' =>
      match exact x, exact_sum xs' with
      | Some a, Some b => Some (a + b)%Q
      | _, _ => None
      end
  end.

(** [total] stands for the exact sum of [xs]. *)
Definition is_exact_sum (total : number) (xs : list number) : Prop :=
  match exact total, exact_sum xs with
  | Some t, Some q => (t == q)%Q
  | _, _ => False
  end.

(** A zero without its sign: [0 + x] for a double [x] is [x], but for
    [-0], where it is [+0]. *)
Definition unsigned_zero (x : number) : number :=
  match x with
  | S754_zero _ => S754_zero false
  | _ => x
  end.

(** The entries of a body all of whose values are strings. *)
Definition string_fields (fields : list (string * string)) : list (string * JSValue) :=
  map (fun '(key, value) => (key, str value)) fields.

(** A request carries the credential headers with the given values. *)
Definition carries_credentials (clientId secret : string) (r : request) : Prop :=
  header "pelm-client-id" r = Some (str clientId) /\
  header "pelm-secret" r = Some (str secret).


(** A field travels in the body of the request or in the query string of
    its URL. *)
Definition in_body_or_query (name value : string) (r : request) : Prop :=
  (exists formData, req_body r = Some formData /\ (name, str value) ∈ formData) \/
  (name, value) ∈ query_fields (req_url r).

(** The three fields of an intervals query travel in the body or in the
    query string. *)
Definition fields_in_body_or_query (pelmAccountId : string) (r : request) : Prop :=
  in_body_or_query "account_id" pelmAccountId r /\
  (exists start_date, in_body_or_query "start_date" start_date r) /\
  (exists end_date, in_body_or_query "end_date" end_date r).

(** The error an exchange ends with, when it fails: the fetch rejects, or
    the body does not parse. *)
Definition failure (o : fetch_outcome) : option error :=
  match outcome_json o with
  | inl e => Some e
  | inr _ => None
  end.

(** The failure that arrives first. *)
Fixpoint first_failure (arrivals : list (nat * fetch_outcome)) : option error :=
  match arrivals with
  | [] => None
  | (_, o) :: arrivals' =>
      match failure o with
      | Some e => Some e
      | None => first_failure arrivals'
      end
  end.

(** [exec p outcomes issued a]: fed exactly [outcomes], the task issues the
    requests [issued] and returns [a]. *)
Inductive exec {A : Type} : prog A -> list fetch_outcome -> list request -> A -> Prop :=
| exec_Ret a :
    exec (Ret a) [] [] a
| exec_Fetch req k o outcomes issued a :
    exec (k o) outcomes issued a ->
    exec (Fetch req k) (o :: outcomes) (req :: issued) a.

(** The requests of the pipeline, as index.ts writes them. *)
Definition connect_token_request (g : Globals) (pelmUserId : string) : request :=
  {| req_method := POST;
     req_url := "https://api.pelm.com/auth/connect-token";
     req_headers := [("accept", str "application/json");
                     ("pelm-client-id", pelmClientId g);
                     ("pelm-secret", pelmSecret g)];
     req_body := Some [("user_id", str pelmUserId)] |}.

Definition connect_request (utilityProviderCode username password : string)
    (bearer : string) : request :=
  {| req_method := POST;
     req_url := "https://api.pelm.com/connect";
     req_headers := [("accept", str "application/json");
                     ("authorization", str ("Bearer " +:+ bearer))];
     req_body := Some [("utility_id", str utilityProviderCode);
                       ("username", str username);
                       ("password", str password)] |}.

Definition token_request (g : Globals) (code : string) : request :=
  {| req_method := POST;
     req_url := "https://api.pelm.com/auth/token";
     req_headers := [("accept", str "application/json");
                     ("pelm-client-id", pelmClientId g);
                     ("pelm-secret", pelmSecret g)];
     req_body := Some [("code", str code)] |}.

Definition bill_pdf_request (g : Globals) (pelmAccessToken billId : string) : request :=
  {| req_method := GET;
     req_url := "https://api.pelm.com/bills/" +:+ billId +:+ "/pdf";
     req_headers := [("accept", str "application/pdf");
                     ("authorization", str ("Bearer " +:+ pelmAccessToken));
                     ("pelm-client-id", pelmClientId g);
                     ("pelm-secret", pelmSecret g)];
     req_body := None |}.

Definition intervals_request (g : Globals) (pelmAccountId pelmToken : string)
    (start_date end_date : string) : request :=
  {| req_method := GET;
     req_url := "https://api.pelm.com/intervals";
     req_headers := [("account_id", str pelmAccountId);
                     ("start_date", str start_date);
                     ("end_date", str end_date);
                     ("authorization", str ("Bearer " +:+ pelmToken));
                     ("pelm-client-id", pelmClientId g);
                     ("pelm-secret", pelmSecret g)];
     req_body := None |}.

(** The module variables once the factory has assigned them. *)
Definition assigned (apiClientId apiSecret : string) : Globals :=
  {| pelmClientId := str apiClientId; pelmSecret := str apiSecret |}.

(** A response with a JSON body. *)
Definition json_response (j : json) : Response :=
  {| status := 200; json_body := inr j |}.

(** How a promise settles on a result or an error. *)
Definition settle {A : Type} (r : error + A) : settled A :=
  match r with
  | inl e => Rejected e
  | inr a => Fulfilled a
  end.

(** The request of [postRequest]: the body entries are the form entries. *)
Definition post_request (url : string) (body : list (string * JSValue))
    (headers : Headers) : request :=
  {| req_method := POST; req_url := url; req_headers := headers;
     req_body := Some body |}.

Definition get_request (url : string) (headers : Headers) : request :=
  {| req_method := GET; req_url := url; req_headers := headers;
     req_body := None |}.

Definition accounts_request (g : Globals) (pelmAccessToken : string) : request :=
  get_request "https://api.pelm.com/accounts"
    [("Authorization", str ("Bearer " +:+ pelmAccessToken));
     ("Pelm-Client-Id", pelmClientId g);
     ("Pelm-Secret", pelmSecret g)].

Definition bills_request (g : Globals) (pelmAccessToken : string) : request :=
  get_request "https://api.pelm.com/bills"
    [("Authorization", str ("Bearer " +:+ pelmAccessToken));
     ("Pelm-Client-Id", pelmClientId g);
     ("Pelm-Secret", pelmSecret g)].


(** A task of a join of single exchanges: it has returned, has thrown, or
    awaits one fetch whose outcome is its result. *)
Definition exchange_task (t : prog json) : Prop :=
  (exists a, t = Ret a) \/
  (exists e, t = Throw e) \/
  (exists req k, t = Fetch req k /\ forall o, k o = lift (outcome_json o)).

(* ===================================================================== *)
(** ** Sanity checks of the model *)
(* ===================================================================== *)

Example toString_examples :
  map Number.toString
      [Number.of_Z 0; Number.of_Z 1000; Number.of_Z (-42);
       Number.div (Number.of_Z 1) (Number.of_Z 10);
       Number.add (Number.div (Number.of_Z 1) (Number.of_Z 10))
                  (Number.div (Number.of_Z 2) (Number.of_Z 10));
       Number.div (Number.of_Z 1667347200123) (Number.of_Z 1000);
       Number.of_Z (10 ^ 21); Number.div (Number.of_Z 1) (Number.of_Z (10 ^ 7));
       Number.div (Number.of_Z 1) (Number.of_Z 0); Number.NaN]
  = ["0"; "1000"; "-42"; "0.1"; "0.30000000000000004"; "1667347200.123";
     "1e+21"; "1e-7"; "Infinity"; "NaN"].
Proof. vm_compute. reflexivity. Qed.

Example header_names_ignore_case :
  header "pelm-client-id"
         {| req_method := GET; req_url := "https://api.pelm.com/accounts";
            req_headers := [("Pelm-Client-Id", str "id")]; req_body := None |}
  = Some (str "id").
Proof. reflexivity. Qed.

Example query_fields_example :
  query_fields "https://api.pelm.com/intervals?account_id=7&start_date=0"
  = [("account_id", "7"); ("start_date", "0")].
Proof. reflexivity. Qed.

Example pipeline_example :
  run (getOrCreatePelmToken (PelmSDK "id" "secret" initial_globals).1
         "utility" "user" "name" "password")
      [Resolves (json_response (JObject {["connect_token" := JString "ct"]}));
       Resolves (json_response (JObject {["authorization_code" := JString "ac"]}));
       Resolves (json_response (JObject {["access_token" := JString "at"]}))]
  = ([connect_token_request (PelmSDK "id" "secret" initial_globals).1 "user";
      connect_request "utility" "name" "password" "ct";
      token_request (PelmSDK "id" "secret" initial_globals).1 "ac"],
     Fulfilled (str "at")).
Proof. vm_compute. reflexivity. Qed.

(** Totals are double sums: 0.1 + 0.2 kWh is 0.30000000000000004. *)
Example totalUsageIntervals_example :
  let tenth (n : Z) := Number.div (Number.of_Z n) (Number.of_Z 10) in
  let epoch := {| getTime := Number.of_Z 0 |} in
  let interval (u e : Z) :=
    {| PelmTypes.start := epoch; PelmTypes.end_ := epoch;
       PelmTypes.usage := tenth u; PelmTypes.ghg_emissions := tenth e |} in
  let account :=
    {| PelmTypes.id := "1"; PelmTypes.account_number := "17";
       PelmTypes.address := "1 Main St";
       PelmTypes.available_meter_types := ["ELECTRIC"];
       PelmTypes.usage_unit := PelmTypes.kwh;
       PelmTypes.gas_usage_unit := PelmTypes.gas_therm;
       PelmTypes.ghg_emission_unit := PelmTypes.kg_co2 |} in
  match run (totalUsageIntervals
               {| PelmTypes.utility := "PGE"; PelmTypes.account := account;
                  PelmTypes.intervals := [interval 1%Z 5%Z; interval 2%Z 10%Z] |}) [] with
  | ([], Fulfilled total) =>
      Number.toString (totalUsage total) = "0.30000000000000004" /\
      Number.toString (totalEmissions total) = "1.5"
  | _ => False
  end.
Proof. vm_compute. auto. Qed.

(** A double exactly between two shortest renderings takes the even digit. *)
Example toString_tie :
  Number.toString (Number.div (Number.of_Z (2 ^ 52 + 3)) (Number.of_Z 4))
  = "1125899906842624.8".
Proof. vm_compute. reflexivity. Qed.

(** An object is rendered by the [toString] it inherits; an own property of
    that name makes the conversion throw; an array joins its elements. *)
Example ToString_examples :
  ToString (JsVal (JObject {["token" := JString "t"]})) = inr "[object Object]" /\
  ToString (JsVal (JObject {["toString" := JString "t"]}))
    = inl (TypeError "Cannot convert object to primitive value") /\
  ToString (JsVal (JArray [JNumber (Number.of_Z 1); JNull; JString "x";
                           JArray [JBool true]])) = inr "1,,x,true" /\
  ToString undefined = inr "undefined".
Proof. vm_compute. auto. Qed.

(** An authorization code that is not a string goes to the form-data
    library as it is: after the second exchange the model says no more. *)
Example pipeline_leaves_non_string_code_open :
  run (getOrCreatePelmToken initial_globals "utility" "user" "name" "password")
      [Resolves (json_response (JObject {["connect_token" := JString "ct"]}));
       Resolves (json_response (JObject {["authorization_code" := JArray []]}))]
  = ([connect_token_request initial_globals "user";
      connect_request "utility" "name" "password" "ct"],
     Unknown).
Proof. vm_compute. reflexivity. Qed.

(** A body that is [null] makes the property read throw. *)
Example null_body_throws :
  (run (getConnectToken initial_globals "user") [Resolves (json_response JNull)]).2
  = Rejected (TypeError "Cannot read properties of null (reading 'connect_token')").
Proof. reflexivity. Qed.

(** An invalid [Date] (time value [NaN]) is sent as ["0"]. *)
Example invalid_date_is_sent_as_zero :
  (run (getPelmIntervals initial_globals "account" "token"
          (Some {| getTime := Number.NaN |}) None) []).1
  = [intervals_request initial_globals "account" "token" "0" "0"].
Proof. reflexivity. Qed.

(** The arrival order does not show in the result of [Promise.all]; the
    first failure to arrive does. *)
Example join_examples :
  let g := (PelmSDK "id" "secret" initial_globals).1 in
  let ok (s : string) := Resolves (json_response (JString s)) in
  (run_joined (getBillPdfs g "token" ["a"; "b"; "c"])
              [(2, ok "C"); (0, ok "A"); (1, ok "B")]).2
    = Fulfilled [JString "A"; JString "B"; JString "C"] /\
  (run_joined (getBillPdfs g "token" ["a"; "b"; "c"])
              [(2, ok "C"); (1, Rejects (FetchError "reset")); (0, ok "A")]).2
    = Rejected (FetchError "reset") /\
  (run_joined (getBillPdfs g "token" ["a"; "b"; "c"]) [(2, ok "C"); (0, ok "A")]).2
    = Pending.
Proof. vm_compute. auto. Qed.

(* ===================================================================== *)
(** ** Running a task *)
(* ===================================================================== *)

Section Exec.
Context {A B : Type}.

Lemma exec_bind (p : prog A) (f : A -> prog B) outcomes issued a outcomes' issued' b :
  exec p outcomes issued a ->
  exec (f a) outcomes' issued' b ->
  exec (bind p f) (outcomes ++ outcomes') (issued ++ issued') b.
Proof.
  induction 1 as [a | req k o outcomes issued a _ IH]; intros Hf; simpl.
  - exact Hf.
  - constructor. apply IH, Hf.
Qed.

Lemma exec_run (p : prog A) outcomes issued a later :
  exec p outcomes issued a ->
  run p (outcomes ++ later) = (issued, Fulfilled a).
Proof.
  induction 1 as [a | req k o outcomes issued a _ IH]; simpl.
  - reflexivity.
  - rewrite IH. reflexivity.
Qed.




End Exec.

(* ===================================================================== *)
(** ** One exchange *)
(* ===================================================================== *)

(** A body of string values fills the form with its entries, in order. *)
Lemma form_of_string_fields (fields : list (string * string)) :
  form_of (string_fields fields) = Some (string_fields fields).
Proof.
  unfold form_of.
  enough (forall entries : FormData,
            fold_left (fun formData '(key, value) =>
                         match formData with
                         | Some entries => FormData_append entries key value
                         | None => None
                         end)
                      (string_fields fields) (Some entries)
            = Some (entries ++ string_fields fields)) as Hfold by apply (Hfold []).
  induction fields as [| [key value] fields IH]; intros entries; simpl.
  - rewrite app_nil_r. reflexivity.
  - rewrite IH, <- app_assoc. reflexivity.
Qed.

Lemma exec_postRequest url body headers formData response j :
  form_of body = Some formData ->
  json_body response = inr j ->
  exec (postRequest url body headers) [Resolves response]
       [{| req_method := POST; req_url := url; req_headers := headers;
           req_body := Some formData |}]
       j.
Proof.
  intros Hform Hbody. unfold postRequest. rewrite Hform.
  unfold fetch, response_json. simpl.
  constructor. simpl. rewrite Hbody. constructor.
Qed.

Lemma exec_getRequest url headers response j :
  json_body response = inr j ->
  exec (getRequest url headers) [Resolves response]
       [{| req_method := GET; req_url := url; req_headers := headers;
           req_body := None |}]
       j.
Proof.
  intros Hbody. unfold getRequest, fetch, response_json. simpl.
  constructor. simpl. rewrite Hbody. constructor.
Qed.

(** A single exchange issues its request and nothing else, however the
    exchange ends. *)
Lemma run_getRequest_requests url headers outcomes :
  (run (getRequest url headers) outcomes).1
  = [{| req_method := GET; req_url := url; req_headers := headers;
        req_body := None |}].
Proof.
  destruct outcomes as [| [e | response] later]; simpl; try reflexivity.
  unfold response_json. destruct (json_body response); reflexivity.
Qed.




(* ===================================================================== *)
(** ** The token pipeline *)
(* ===================================================================== *)

Lemma exec_getConnectToken g pelmUserId response j token :
  json_body response = inr j ->
  property "connect_token" j = inr token ->
  exec (getConnectToken g pelmUserId) [Resolves response]
       [connect_token_request g pelmUserId] token.
Proof.
  intros Hbody Hfield. unfold getConnectToken.
  apply (exec_bind _ _ [_] [_] j [] []);
    [apply exec_postRequest; [reflexivity | exact Hbody] |].
  rewrite Hfield. simpl. constructor.
Qed.

Lemma exec_getAuthCode utilityProviderCode username password connectToken bearer
    response j authCode :
  ToString connectToken = inr bearer ->
  json_body response = inr j ->
  property "authorization_code" j = inr authCode ->
  exec (getAuthCode utilityProviderCode username password connectToken)
       [Resolves response]
       [connect_request utilityProviderCode username password bearer]
       authCode.
Proof.
  intros Htext Hbody Hfield. unfold getAuthCode.
  rewrite Htext. cbn [lift bind].
  apply (exec_bind _ _ [_] [_] j [] []);
    [apply exec_postRequest; [reflexivity | exact Hbody] |].
  rewrite Hfield. simpl. constructor.
Qed.

Lemma exec_getAccessToken g (code : string) response j accessToken :
  json_body response = inr j ->
  property "access_token" j = inr accessToken ->
  exec (getAccessToken g (str code)) [Resolves response]
       [token_request g code] accessToken.
Proof.
  intros Hbody Hfield. unfold getAccessToken.
  apply (exec_bind _ _ [_] [_] j [] []);
    [apply exec_postRequest; [reflexivity | exact Hbody] |].
  rewrite Hfield. simpl. constructor.
Qed.

Lemma property_missing key fields :
  fields !! key = None -> property key (JObject fields) = inr undefined.
Proof. intros Hnone. unfold property, own_property. rewrite Hnone. reflexivity. Qed.

(** A body other than [null] without the own property: the read gives
    [undefined]. *)
Lemma property_absent key (j : json) :
  j <> JNull -> own_property key j = None -> property key j = inr undefined.
Proof.
  intros Hnull Hnone. unfold property. rewrite Hnone.
  destruct j; [congruence | reflexivity ..].
Qed.

(** C3.  When each of the three exchanges answers with a body holding its
    field, [getOrCreatePelmToken] issues exactly three requests, in the
    order connect-token, connect, token: the [connect_token] of the first
    body is the Bearer authorization of the second request, the
    [authorization_code] of the second body is the [code] field of the third
    request, and the [access_token] of the third body is returned. *)
Theorem getOrCreatePelmToken_three_calls_in_order
    g providerCode pelmUserId username password
    (r1 r2 r3 : Response) (j1 j2 j3 : json)
    (connect_token authorization_code : string) (access_token : JSValue)
    (later : list fetch_outcome) :
  json_body r1 = inr j1 ->
  property "connect_token" j1 = inr (str connect_token) ->
  json_body r2 = inr j2 ->
  property "authorization_code" j2 = inr (str authorization_code) ->
  json_body r3 = inr j3 ->
  property "access_token" j3 = inr access_token ->
  run (getOrCreatePelmToken g providerCode pelmUserId username password)
      (Resolves r1 :: Resolves r2 :: Resolves r3 :: later)
  = ([ {| req_method := POST;
          req_url := "https://api.pelm.com/auth/connect-token";
          req_headers := [("accept", str "application/json");
                          ("pelm-client-id", pelmClientId g);
                          ("pelm-secret", pelmSecret g)];
          req_body := Some [("user_id", str pelmUserId)] |};
       {| req_method := POST;
          req_url := "https://api.pelm.com/connect";
          req_headers := [("accept", str "application/json");
                          ("authorization", str ("Bearer " +:+ connect_token))];
          req_body := Some [("utility_id", str providerCode);
                            ("username", str username);
                            ("password", str password)] |};
       {| req_method := POST;
          req_url := "https://api.pelm.com/auth/token";
          req_headers := [("accept", str "application/json");
                          ("pelm-client-id", pelmClientId g);
                          ("pelm-secret", pelmSecret g)];
          req_body := Some [("code", str authorization_code)] |} ],
     Fulfilled access_token).
Proof.
  intros Hb1 Hf1 Hb2 Hf2 Hb3 Hf3.
  apply (exec_run _ [_; _; _] _ _ later).
  unfold getOrCreatePelmToken.
  apply (exec_bind _ _ [_] [_] (str connect_token) [_; _] [_; _]).
  { eapply exec_getConnectToken; eassumption. }
  apply (exec_bind _ _ [_] [_] (str authorization_code) [_] [_]).
  { eapply exec_getAuthCode; [reflexivity | eassumption ..]. }
  apply (exec_bind _ _ [_] [_] access_token [] []).
  { eapply exec_getAccessToken; eassumption. }
  constructor.
Qed.

Lemma getOrCreatePelmToken_three_calls_in_order_witness :
  run (getOrCreatePelmToken (PelmSDK "id" "secret" initial_globals).1
         "utility" "user" "name" "password")
      [Resolves (json_response (JObject {["connect_token" := JString "ct"]}));
       Resolves (json_response (JObject {["authorization_code" := JString "ac"]}));
       Resolves (json_response (JObject {["access_token" := JString "at"]}))]
  = ([connect_token_request (PelmSDK "id" "secret" initial_globals).1 "user";
      connect_request "utility" "name" "password" "ct";
      token_request (PelmSDK "id" "secret" initial_globals).1 "ac"],
     Fulfilled (str "at")).
Proof.
  apply (getOrCreatePelmToken_three_calls_in_order
           (PelmSDK "id" "secret" initial_globals).1
           "utility" "user" "name" "password"
           (json_response (JObject {["connect_token" := JString "ct"]}))
           (json_response (JObject {["authorization_code" := JString "ac"]}))
           (json_response (JObject {["access_token" := JString "at"]}))
           (JObject {["connect_token" := JString "ct"]})
           (JObject {["authorization_code" := JString "ac"]})
           (JObject {["access_token" := JString "at"]})
           "ct" "ac" (str "at") []);
    reflexivity.
Defined.

(** C4 as it is worded does not hold: the body [null] is a JSON response
    that holds no [connect_token], and on it [getConnectToken] does not
    return [undefined]: the property read throws a TypeError. *)
Lemma null_body_is_an_error_not_undefined :
  ~ (own_property "connect_token" JNull = None ->
     (run (getConnectToken initial_globals "user")
          [Resolves (json_response JNull)]).2
     = Fulfilled undefined).
Proof.
  intros Hclaim. specialize (Hclaim eq_refl). discriminate Hclaim.
Qed.

(** C4, amended.  When the body of the response is a JSON value other than
    [null] that does not hold the expected field -- an object without it,
    or a string, a number, a boolean or an array -- each step of the token
    pipeline fulfils with [undefined], after its one request: no error is
    signalled.  (The steps are called with strings, as their signatures
    say.) *)
Theorem token_steps_return_undefined_on_missing_field
    g (pelmUserId utilityProviderCode username password connectToken authCode : string)
    (response : Response) (j : json) (later : list fetch_outcome) :
  json_body response = inr j ->
  j <> JNull ->
  (own_property "connect_token" j = None ->
   run (getConnectToken g pelmUserId) (Resolves response :: later)
   = ([connect_token_request g pelmUserId], Fulfilled undefined)) /\
  (own_property "authorization_code" j = None ->
   run (getAuthCode utilityProviderCode username password (str connectToken))
       (Resolves response :: later)
   = ([connect_request utilityProviderCode username password connectToken],
      Fulfilled undefined)) /\
  (own_property "access_token" j = None ->
   run (getAccessToken g (str authCode)) (Resolves response :: later)
   = ([token_request g authCode], Fulfilled undefined)).
Proof.
  intros Hbody Hnull. split; [| split]; intros Hnone.
  - apply (exec_run _ [_] _ _ later).
    eapply exec_getConnectToken; [exact Hbody | apply property_absent; assumption].
  - apply (exec_run _ [_] _ _ later).
    eapply exec_getAuthCode;
      [reflexivity | exact Hbody | apply property_absent; assumption].
  - apply (exec_run _ [_] _ _ later).
    eapply exec_getAccessToken; [exact Hbody | apply property_absent; assumption].
Qed.

Lemma token_steps_return_undefined_on_missing_field_witness :
  (run (getConnectToken initial_globals "user")
       [Resolves (json_response (JObject {["expires_in" := JNumber (Number.of_Z 60)]}))]
   = ([connect_token_request initial_globals "user"], Fulfilled undefined)) /\
  (run (getAuthCode "utility" "name" "password" (str "ct"))
       [Resolves (json_response (JObject {["expires_in" := JNumber (Number.of_Z 60)]}))]
   = ([connect_request "utility" "name" "password" "ct"], Fulfilled undefined)) /\
  (run (getAccessToken initial_globals (str "ac"))
       [Resolves (json_response (JObject {["expires_in" := JNumber (Number.of_Z 60)]}))]
   = ([token_request initial_globals "ac"], Fulfilled undefined)).
Proof.
  destruct (token_steps_return_undefined_on_missing_field
              initial_globals "user" "utility" "name" "password" "ct" "ac"
              (json_response (JObject {["expires_in" := JNumber (Number.of_Z 60)]}))
              (JObject {["expires_in" := JNumber (Number.of_Z 60)]}) [] eq_refl)
    as (Hconnect & Hcode & Htoken); [discriminate |].
  split; [apply Hconnect | split; [apply Hcode | apply Htoken]]; reflexivity.
Defined.

(* ===================================================================== *)
(** ** Usage totals *)
(* ===================================================================== *)

Lemma reduce_add_sum_from {A : Type} (f : A -> number) (l : list A) (start : number) :
  Array_reduce (fun accumulator x => Number.add accumulator (f x)) start l
  = sum_from start (map f l).
Proof.
  unfold Array_reduce. revert start.
  induction l as [| x l IH]; intros start; simpl.
  - reflexivity.
  - apply IH.
Qed.

Lemma add_to_zero (x : number) : Number.add (Number.of_Z 0%Z) x = unsigned_zero x.
Proof. destruct x as [[|] | | |]; reflexivity. Qed.

(** C2 as it is worded does not hold: for the usages 2^53, 1 and 1 the
    total usage returned is 9007199254740992, and not their sum
    9007199254740994 (which is itself a double). *)
Lemma totalUsage_is_not_the_exact_sum :
  let response :=
    {| PelmTypes.utility := "PGE";
       PelmTypes.account :=
         {| PelmTypes.id := "1"; PelmTypes.account_number := "17";
            PelmTypes.address := "1 Main St";
            PelmTypes.available_meter_types := ["ELECTRIC"];
            PelmTypes.usage_unit := PelmTypes.kwh;
            PelmTypes.gas_usage_unit := PelmTypes.gas_therm;
            PelmTypes.ghg_emission_unit := PelmTypes.kg_co2 |};
       PelmTypes.intervals :=
         map (fun u : Z =>
                {| PelmTypes.start := {| getTime := Number.of_Z 0 |};
                   PelmTypes.end_ := {| getTime := Number.of_Z 0 |};
                   PelmTypes.usage := Number.of_Z u;
                   PelmTypes.ghg_emissions := Number.of_Z 0 |})
             [(2 ^ 53)%Z; 1%Z; 1%Z] |} in
  ~ (forall total,
       run (totalUsageIntervals response) [] = ([], Fulfilled total) ->
       is_exact_sum (totalUsage total)
                    (map PelmTypes.usage (PelmTypes.intervals response))).
Proof.
  intros response Hclaim. specialize (Hclaim _ eq_refl).
  vm_compute in Hclaim. discriminate Hclaim.
Qed.

(** C2, amended.  [totalUsageIntervals] returns the [usage] fields, and the
    [ghg_emissions] fields, added one after the other in the order of the
    list, starting from 0, each addition being that of doubles; on no
    interval both totals are 0, on one interval they are its usage and its
    emissions (a negative zero losing its sign); and no request is issued,
    whatever the network would answer. *)
Theorem totalUsageIntervals_sums (accountsAndIntervals : PelmTypes.IntervalsResponse) :
  (forall outcomes,
     run (totalUsageIntervals accountsAndIntervals) outcomes
     = ([], Fulfilled
              {| totalUsage :=
                   sum (map PelmTypes.usage (PelmTypes.intervals accountsAndIntervals));
                 totalEmissions :=
                   sum (map PelmTypes.ghg_emissions
                            (PelmTypes.intervals accountsAndIntervals)) |})) /\
  (forall utility account outcomes,
     run (totalUsageIntervals
            {| PelmTypes.utility := utility; PelmTypes.account := account;
               PelmTypes.intervals := [] |}) outcomes
     = ([], Fulfilled {| totalUsage := Number.of_Z 0%Z;
                         totalEmissions := Number.of_Z 0%Z |})) /\
  (forall utility account interval outcomes,
     run (totalUsageIntervals
            {| PelmTypes.utility := utility; PelmTypes.account := account;
               PelmTypes.intervals := [interval] |}) outcomes
     = ([], Fulfilled
              {| totalUsage := unsigned_zero (PelmTypes.usage interval);
                 totalEmissions := unsigned_zero (PelmTypes.ghg_emissions interval) |})).
Proof.
  split; [| split].
  - intros outcomes. unfold totalUsageIntervals, sum.
    rewrite !reduce_add_sum_from. reflexivity.
  - intros utility account outcomes. reflexivity.
  - intros utility account interval outcomes.
    unfold totalUsageIntervals, Array_reduce. cbn [fold_left PelmTypes.intervals run].
    rewrite !add_to_zero. reflexivity.
Qed.

(* ===================================================================== *)
(** ** Usage intervals *)
(* ===================================================================== *)

Lemma run_getPelmIntervals_requests g pelmAccountId pelmToken startDate endDate outcomes :
  (run (getPelmIntervals g pelmAccountId pelmToken startDate endDate) outcomes).1
  = [intervals_request g pelmAccountId pelmToken
       (Number.toString (unix_seconds startDate))
       (Number.toString (unix_seconds endDate))].
Proof. unfold getPelmIntervals. apply run_getRequest_requests. Qed.

Lemma unix_seconds_absent : Number.toString (unix_seconds None) = "0".
Proof. reflexivity. Qed.

Lemma unix_seconds_of_time (ms : number) :
  Number.is_nan ms = false ->
  Number.toString (unix_seconds (Some {| getTime := ms |}))
  = Number.toString (Number.div ms (Number.of_Z 1000%Z)).
Proof.
  intros Hms. destruct ms as [s | s | | s m e]; simpl in Hms.
  - destruct s; reflexivity.
  - reflexivity.
  - discriminate Hms.
  - reflexivity.
Qed.

(** C7.  With neither date given, the one request of [getPelmIntervals]
    has [start_date] and [end_date] equal to the string "0". *)
Theorem getPelmIntervals_without_dates g pelmAccountId pelmToken outcomes :
  exists r,
    (run (getPelmIntervals g pelmAccountId pelmToken None None) outcomes).1 = [r] /\
    header "start_date" r = Some (str "0") /\
    header "end_date" r = Some (str "0").
Proof.
  eexists. split; [apply run_getPelmIntervals_requests |].
  split; reflexivity.
Qed.

(** C8.  With [startDate] a date of time value [ms] milliseconds, the
    request has [start_date] equal to the rendering of [ms / 1000]; and
    likewise for [endDate] and [end_date]. *)
Theorem getPelmIntervals_date_in_seconds g pelmAccountId pelmToken (ms : number)
    (other : option Date) outcomes :
  Number.is_nan ms = false ->
  (exists r,
     (run (getPelmIntervals g pelmAccountId pelmToken
             (Some {| getTime := ms |}) other) outcomes).1 = [r] /\
     header "start_date" r
     = Some (str (Number.toString (Number.div ms (Number.of_Z 1000%Z))))) /\
  (exists r,
     (run (getPelmIntervals g pelmAccountId pelmToken
             other (Some {| getTime := ms |})) outcomes).1 = [r] /\
     header "end_date" r
     = Some (str (Number.toString (Number.div ms (Number.of_Z 1000%Z))))).
Proof.
  intros Hms. split.
  - eexists. split; [apply run_getPelmIntervals_requests |].
    rewrite (unix_seconds_of_time ms Hms). reflexivity.
  - eexists. split; [apply run_getPelmIntervals_requests |].
    rewrite (unix_seconds_of_time ms Hms). reflexivity.
Qed.

Lemma getPelmIntervals_date_in_seconds_witness :
  (exists r,
     (run (getPelmIntervals initial_globals "account" "token"
             (Some {| getTime := Number.of_Z 1667347200123%Z |}) None) []).1 = [r] /\
     header "start_date" r = Some (str "1667347200.123")) /\
  (exists r,
     (run (getPelmIntervals initial_globals "account" "token"
             None (Some {| getTime := Number.of_Z 1667347200123%Z |})) []).1 = [r] /\
     header "end_date" r = Some (str "1667347200.123")).
Proof.
  exact (getPelmIntervals_date_in_seconds initial_globals "account" "token"
           (Number.of_Z 1667347200123%Z) None [] eq_refl).
Defined.

(** C9 as it is worded does not hold: the request of [getPelmIntervals] has
    no body and its URL has no query string, so no field travels there. *)
Lemma getPelmIntervals_fields_not_in_body_or_query :
  ~ Forall
      (fun r =>
         req_method r = GET /\
         req_url r = "https://api.pelm.com/intervals" /\
         fields_in_body_or_query "account" r /\
         header "authorization" r = Some (str "Bearer token") /\
         carries_credentials "id" "secret" r)
      (run (getPelmIntervals (PelmSDK "id" "secret" initial_globals).1
              "account" "token" None None) []).1.
Proof.
  intros Hall. apply Forall_cons_1 in Hall as [(_ & _ & Hfields & _) _].
  destruct Hfields as [[(formData & Hbody & _) | Hquery] _].
  - discriminate Hbody.
  - simpl in Hquery. apply elem_of_nil in Hquery. exact Hquery.
Qed.

(** C9, amended.  [getPelmIntervals] issues one request: a GET of
    https://api.pelm.com/intervals without body and without query string,
    whose headers are [account_id], [start_date], [end_date], the Bearer
    [authorization] and the two credential headers. *)
Theorem getPelmIntervals_fields_are_headers
    g pelmAccountId pelmToken startDate endDate outcomes :
  (run (getPelmIntervals g pelmAccountId pelmToken startDate endDate) outcomes).1
  = [ {| req_method := GET;
         req_url := "https://api.pelm.com/intervals";
         req_headers :=
           [("account_id", str pelmAccountId);
            ("start_date", str (Number.toString (unix_seconds startDate)));
            ("end_date", str (Number.toString (unix_seconds endDate)));
            ("authorization", str ("Bearer " +:+ pelmToken));
            ("pelm-client-id", pelmClientId g);
            ("pelm-secret", pelmSecret g)];
         req_body := None |} ] /\
  query_fields "https://api.pelm.com/intervals" = [].
Proof.
  split; [apply run_getPelmIntervals_requests | reflexivity].
Qed.

(* ===================================================================== *)
(** ** Promise.all *)
(* ===================================================================== *)

Section Join.
Context {A : Type}.
Implicit Types (tasks : list (prog A)) (arrivals : list (nat * fetch_outcome)).

Lemma first_rejection_none tasks :
  (forall t e, t ∈ tasks -> t <> Throw e) -> first_rejection tasks = None.
Proof.
  induction tasks as [| t tasks IH]; intros Hno; simpl; [reflexivity |].
  assert (first_rejection tasks = None) as Htail.
  { apply IH. intros t' e Hin. apply Hno. right. exact Hin. }
  destruct t as [a | e | req k | library]; [exact Htail | | exact Htail ..].
  exfalso. apply (Hno (Throw e) e); [left | reflexivity].
Qed.

Lemma first_rejection_insert tasks i e :
  (forall t e', t ∈ tasks -> t <> Throw e') ->
  i < length tasks ->
  first_rejection (<[i := Throw e]> tasks) = Some e.
Proof.
  revert i. induction tasks as [| t tasks IH]; intros i Hno Hi; simpl in Hi.
  - lia.
  - destruct i as [| i]; simpl; [reflexivity |].
    rewrite IH.
    + destruct t as [a | e' | req k | library]; [reflexivity | | reflexivity ..].
      exfalso. apply (Hno (Throw e') e'); [left | reflexivity].
    + intros t' e' Hin. apply Hno. right. exact Hin.
    + lia.
Qed.

Lemma values_awaiting tasks i req k :
  tasks !! i = Some (Fetch req k) -> values tasks = None.
Proof.
  revert i. induction tasks as [| t tasks IH]; intros i Hi.
  - discriminate Hi.
  - destruct i as [| i]; simpl in Hi.
    + injection Hi as ->. reflexivity.
    + simpl. destruct t as [a | e | req' k' | library]; [| reflexivity ..].
      rewrite (IH i Hi). reflexivity.
Qed.

Lemma values_returned (vs : list A) : values (map Ret vs) = Some vs.
Proof.
  induction vs as [| v vs IH]; simpl; [reflexivity |].
  rewrite IH. reflexivity.
Qed.

Lemma first_rejection_returned (vs : list A) : first_rejection (map Ret vs) = None.
Proof. induction vs as [| v vs IH]; simpl; [reflexivity | exact IH]. Qed.

Lemma all_returned tasks :
  (forall i t, tasks !! i = Some t -> exists a, t = Ret a) ->
  exists vs, tasks = map Ret vs.
Proof.
  induction tasks as [| t tasks IH]; intros Hret.
  - exists []. reflexivity.
  - destruct (Hret 0 t eq_refl) as [a ->].
    destruct IH as [vs ->].
    + intros i t' Hi. apply (Hret (S i)). exact Hi.
    + exists (a :: vs). reflexivity.
Qed.

Lemma Promise_all_pending tasks i req k :
  (forall t e, t ∈ tasks -> t <> Throw e) ->
  tasks !! i = Some (Fetch req k) ->
  Promise_all_state tasks = Pending.
Proof.
  intros Hno Hi. unfold Promise_all_state.
  rewrite (first_rejection_none tasks Hno), (values_awaiting tasks i req k Hi).
  reflexivity.
Qed.

Lemma Promise_all_fulfilled (vs : list A) :
  Promise_all_state (map Ret vs) = Fulfilled vs.
Proof.
  unfold Promise_all_state.
  rewrite first_rejection_returned, values_returned. reflexivity.
Qed.

Lemma Promise_all_rejected tasks i e :
  (forall t e', t ∈ tasks -> t <> Throw e') ->
  i < length tasks ->
  Promise_all_state (<[i := Throw e]> tasks) = Rejected e.
Proof.
  intros Hno Hi. unfold Promise_all_state.
  rewrite (first_rejection_insert tasks i e Hno Hi). reflexivity.
Qed.

Lemma join_fulfilled tasks arrivals vs :
  Promise_all_state tasks = Fulfilled vs -> join tasks arrivals = ([], Fulfilled vs).
Proof. intros Hstate. destruct arrivals; simpl; rewrite Hstate; reflexivity. Qed.

Lemma join_rejected tasks arrivals e :
  Promise_all_state tasks = Rejected e -> join tasks arrivals = ([], Rejected e).
Proof. intros Hstate. destruct arrivals; simpl; rewrite Hstate; reflexivity. Qed.

Lemma join_step tasks i o arrivals req k :
  Promise_all_state tasks = Pending ->
  tasks !! i = Some (Fetch req k) ->
  join tasks ((i, o) :: arrivals)
  = (pending_request (k o) ++ (join (<[i := k o]> tasks) arrivals).1,
     (join (<[i := k o]> tasks) arrivals).2).
Proof.
  intros Hstate Hi. simpl. rewrite Hstate. unfold deliver. rewrite Hi.
  destruct (join (<[i := k o]> tasks) arrivals). reflexivity.
Qed.

End Join.

(** Tasks that are single exchanges: each one has returned, or awaits one
    fetch whose outcome is its result.  Each arrival answers a task that
    still awaits, and no task is answered twice.  Joined, such tasks reject
    with the first failure that arrives; without a failure, and once every
    awaiting task is answered, they fulfil with the bodies, in the order of
    the tasks. *)
Lemma join_exchanges (arrivals : list (nat * fetch_outcome)) :
  forall tasks : list (prog json),
  NoDup arrivals.*1 ->
  (forall i, i ∈ arrivals.*1 -> exists req k, tasks !! i = Some (Fetch req k)) ->
  (forall i t, tasks !! i = Some t ->
     (exists a, t = Ret a) \/
     (exists req k, t = Fetch req k /\ forall o, k o = lift (outcome_json o))) ->
  match first_failure arrivals with
  | Some e => join tasks arrivals = ([], Rejected e)
  | None =>
      (forall i req k, tasks !! i = Some (Fetch req k) -> i ∈ arrivals.*1) ->
      exists vs, join tasks arrivals = ([], Fulfilled vs) /\
        length vs = length tasks /\
        (forall i a, tasks !! i = Some (Ret a) -> vs !! i = Some a) /\
        (forall i o j, (i, o) ∈ arrivals -> outcome_json o = inr j -> vs !! i = Some j)
  end.
Proof.
  induction arrivals as [| [i o] arrivals IH]; intros tasks Hnodup Hawait Hshape.
  - (* nothing is awaited: every task has returned *)
    cbn [first_failure]. intros Hall.
    destruct (all_returned tasks) as [vs ->].
    { intros i t Hi.
      destruct (Hshape i t Hi) as [Hret | (req & k & -> & _)]; [exact Hret |].
      exfalso. specialize (Hall i req k Hi). inversion Hall. }
    exists vs. rewrite (join_fulfilled _ _ vs (Promise_all_fulfilled vs)).
    split; [reflexivity |]. split; [rewrite length_map; reflexivity |].
    split.
    + intros i a. rewrite list_lookup_fmap.
      destruct (vs !! i) as [v |]; simpl; [| discriminate]. intros [= ->]. reflexivity.
    + intros i o j Hin. inversion Hin.
  - (* the outcome [o] arrives for task [i], which awaits it *)
    rewrite fmap_cons in Hnodup, Hawait. simpl in Hnodup, Hawait.
    apply NoDup_cons in Hnodup as [Hfresh Hnodup].
    destruct (Hawait i) as (req & k & Hi); [left |].
    assert (forall t e, t ∈ tasks -> t <> Throw e) as Hno.
    { intros t e Hin ->. apply list_elem_of_lookup in Hin as [n Hn].
      destruct (Hshape n _ Hn) as [[a Ha] | (req' & k' & Hf & _)]; discriminate. }
    destruct (Hshape i _ Hi) as [[a Ha] | (req' & k' & Heq & Hk)]; [discriminate |].
    injection Heq as <- <-.
    assert (i < length tasks) as Hlt by (apply lookup_lt_is_Some; eauto).
    rewrite (join_step tasks i o arrivals req k
               (Promise_all_pending tasks i req k Hno Hi) Hi).
    rewrite Hk. simpl. unfold failure.
    destruct (outcome_json o) as [e | j] eqn:Ho; simpl.
    + rewrite (join_rejected _ arrivals e (Promise_all_rejected tasks i e Hno Hlt)).
      reflexivity.
    + specialize (IH (<[i := Ret j]> tasks) Hnodup).
      assert (forall n, n ∈ arrivals.*1 ->
                exists req0 k0, <[i := Ret j]> tasks !! n = Some (Fetch req0 k0))
        as Hawait'.
      { intros n Hin. rewrite list_lookup_insert_ne by (intros ->; contradiction).
        apply Hawait. right. exact Hin. }
      assert (forall n t, <[i := Ret j]> tasks !! n = Some t ->
                (exists a, t = Ret a) \/
                (exists req0 k0, t = Fetch req0 k0 /\
                   forall o0, k0 o0 = lift (outcome_json o0)))
        as Hshape'.
      { intros n t. destruct (decide (n = i)) as [-> | Hne].
        - rewrite list_lookup_insert_eq by exact Hlt.
          intros [= <-]. left. exists j. reflexivity.
        - rewrite list_lookup_insert_ne by congruence. apply Hshape. }
      specialize (IH Hawait' Hshape').
      destruct (first_failure arrivals) as [e |].
      * rewrite IH. reflexivity.
      * intros Hall.
        destruct IH as (vs & Hjoin & Hlen & Hreturned & Harrived).
        { intros n req0 k0. destruct (decide (n = i)) as [-> | Hne].
          - rewrite list_lookup_insert_eq by exact Hlt. discriminate.
          - rewrite list_lookup_insert_ne by congruence. intros Hn.
            apply Hall in Hn. apply elem_of_cons in Hn as [-> | Hn]; [congruence | exact Hn]. }
        exists vs. rewrite Hjoin. split; [reflexivity |].
        split; [rewrite Hlen, length_insert; reflexivity |].
        split.
        -- intros n a Hn. apply Hreturned.
           destruct (decide (n = i)) as [-> | Hne]; [congruence |].
           rewrite list_lookup_insert_ne by congruence. exact Hn.
        -- intros n o' j' Hin Ho'.
           apply elem_of_cons in Hin as [[= -> ->] | Hin]; [| eauto].
           rewrite Ho in Ho'. injection Ho' as <-.
           apply Hreturned. apply list_lookup_insert_eq, Hlt.
Qed.



(* ===================================================================== *)
(** ** Bill PDFs *)
(* ===================================================================== *)

(** The task started for one bill id: it awaits the GET of the PDF and ends
    as that exchange ends. *)
Lemma bill_task_shape g pelmAccessToken billId :
  exists k,
    (response <- getRequest
       ("https://api.pelm.com/bills/" +:+ billId +:+ "/pdf")
       [("accept", str "application/pdf");
        ("authorization", str ("Bearer " +:+ pelmAccessToken));
        ("pelm-client-id", pelmClientId g);
        ("pelm-secret", pelmSecret g)] ;;
     Ret response)
    = Fetch (bill_pdf_request g pelmAccessToken billId) k /\
    forall o, k o = lift (outcome_json o).
Proof.
  eexists. split; [reflexivity |].
  intros [e | response]; simpl; [reflexivity |].
  unfold response_json. destruct (json_body response); reflexivity.
Qed.

Lemma getBillPdfs_tasks g pelmAccessToken pelmBillIds :
  exists tasks,
    getBillPdfs g pelmAccessToken pelmBillIds = Promise_all tasks /\
    length tasks = length pelmBillIds /\
    flat_map pending_request tasks
      = map (bill_pdf_request g pelmAccessToken) pelmBillIds /\
    forall i t, tasks !! i = Some t ->
      exists req k, t = Fetch req k /\ forall o, k o = lift (outcome_json o).
Proof.
  eexists. split; [reflexivity |].
  split; [apply length_map |]. split.
  - induction pelmBillIds as [| billId ids IH]; [reflexivity |].
    change (bill_pdf_request g pelmAccessToken billId
              :: flat_map pending_request
                   (map (fun billId =>
                           response <- getRequest
                             ("https://api.pelm.com/bills/" +:+ billId +:+ "/pdf")
                             [("accept", str "application/pdf");
                              ("authorization", str ("Bearer " +:+ pelmAccessToken));
                              ("pelm-client-id", pelmClientId g);
                              ("pelm-secret", pelmSecret g)] ;;
                           Ret response) ids)
            = bill_pdf_request g pelmAccessToken billId
              :: map (bill_pdf_request g pelmAccessToken) ids).
    rewrite IH. reflexivity.
  - intros i t. rewrite list_lookup_fmap.
    destruct (pelmBillIds !! i) as [billId |]; intros Ht; [| discriminate Ht].
    destruct (bill_task_shape g pelmAccessToken billId) as (k & Heq & Hk).
    exists (bill_pdf_request g pelmAccessToken billId), k. split; [| exact Hk].
    injection Ht as <-. exact Heq.
Qed.

(** Each arrival for a bill id in range answers a task that awaits. *)
Lemma bill_tasks_await (pelmBillIds : list string) (tasks : list (prog json))
    (indices : list nat) :
  length tasks = length pelmBillIds ->
  (forall i t, tasks !! i = Some t ->
     exists req k, t = Fetch req k /\ forall o, k o = lift (outcome_json o)) ->
  (forall i, i ∈ indices -> i < length pelmBillIds) ->
  forall i, i ∈ indices -> exists req k, tasks !! i = Some (Fetch req k).
Proof.
  intros Hlen Hshape Hrange i Hin.
  apply Hrange in Hin. rewrite <- Hlen in Hin.
  apply lookup_lt_is_Some in Hin as [t Ht].
  destruct (Hshape i t Ht) as (req & k & -> & _). eauto.
Qed.

Lemma first_failure_none arrivals (body : nat -> json) :
  (forall i o, (i, o) ∈ arrivals -> outcome_json o = inr (body i)) ->
  first_failure arrivals = None.
Proof.
  induction arrivals as [| [i o] arrivals IH]; intros Hok; simpl; [reflexivity |].
  unfold failure. rewrite (Hok i o) by left.
  apply IH. intros i' o' Hin. apply Hok. right. exact Hin.
Qed.

Lemma first_failure_some arrivals :
  Exists (fun arrival => is_Some (failure arrival.2)) arrivals ->
  is_Some (first_failure arrivals).
Proof.
  induction 1 as [[i o] arrivals [e He] | [i o] arrivals _ IH]; simpl in *.
  - rewrite He. eauto.
  - destruct (failure o); [eauto | exact IH].
Qed.

(** C5.  When every request is answered, and answered with a body that
    parses, [getBillPdfs] issues the GET of each id's PDF in the order of
    the ids and fulfils with the bodies in that same order, in whatever
    order the answers arrive: element [i] of the result is the body of the
    answer to request [i]. *)
Theorem getBillPdfs_keeps_input_order g pelmAccessToken pelmBillIds
    (arrivals : list (nat * fetch_outcome)) (body : nat -> json) :
  arrivals.*1 ≡ₚ seq 0 (length pelmBillIds) ->
  (forall i o, (i, o) ∈ arrivals -> outcome_json o = inr (body i)) ->
  run_joined (getBillPdfs g pelmAccessToken pelmBillIds) arrivals
  = (map (bill_pdf_request g pelmAccessToken) pelmBillIds,
     Fulfilled (map body (seq 0 (length pelmBillIds)))).
Proof.
  intros Hperm Hok.
  destruct (getBillPdfs_tasks g pelmAccessToken pelmBillIds)
    as (tasks & -> & Hlen & Hissued & Hshape).
  assert (forall i, i ∈ arrivals.*1 <-> i < length pelmBillIds) as Hrange.
  { intros i. rewrite Hperm, elem_of_seq. lia. }
  pose proof (join_exchanges arrivals tasks) as Hjoin.
  rewrite (first_failure_none arrivals body Hok) in Hjoin.
  destruct Hjoin as (vs & Hjoin & Hvs & _ & Harrived).
  { rewrite Hperm. apply NoDup_seq. }
  { apply (bill_tasks_await pelmBillIds); [exact Hlen | exact Hshape |].
    intros i. apply Hrange. }
  { intros i t Ht. right. apply (Hshape i t Ht). }
  { intros i req k Hi. apply Hrange. rewrite <- Hlen.
    apply lookup_lt_is_Some. eauto. }
  unfold run_joined. rewrite Hjoin, Hissued, app_nil_r.
  f_equal. f_equal. apply list_eq. intros i.
  rewrite list_lookup_fmap.
  destruct (decide (i < length pelmBillIds)) as [Hi | Hi].
  - rewrite lookup_seq_lt by exact Hi. simpl.
    assert (i ∈ arrivals.*1) as Hin by (apply Hrange; exact Hi).
    apply list_elem_of_fmap in Hin as ([i' o] & -> & Hin). simpl.
    apply (Harrived i' o (body i') Hin). apply (Hok i' o Hin).
  - rewrite lookup_seq_ge by lia. simpl.
    apply lookup_ge_None. lia.
Qed.

Lemma getBillPdfs_keeps_input_order_witness :
  run_joined (getBillPdfs initial_globals "token" ["a"; "b"; "c"])
             [(2, Resolves (json_response (JString "C")));
              (0, Resolves (json_response (JString "A")));
              (1, Resolves (json_response (JString "B")))]
  = (map (bill_pdf_request initial_globals "token") ["a"; "b"; "c"],
     Fulfilled [JString "A"; JString "B"; JString "C"]).
Proof.
  apply (getBillPdfs_keeps_input_order initial_globals "token" ["a"; "b"; "c"]
           [(2, Resolves (json_response (JString "C")));
            (0, Resolves (json_response (JString "A")));
            (1, Resolves (json_response (JString "B")))]
           (fun i => match i with
                     | 0 => JString "A"
                     | 1 => JString "B"
                     | _ => JString "C"
                     end)).
  - simpl. apply (Permutation_cons_app [0; 1] [] 2). reflexivity.
  - intros i o Hin.
    repeat (apply elem_of_cons in Hin as [[= -> ->] | Hin]; [reflexivity |]).
    inversion Hin.
Defined.

(** C6.  When one of the exchanges of [getBillPdfs] fails -- its fetch
    rejects or its body does not parse -- the call rejects, with the first
    failure to arrive, whether or not the other requests have been answered:
    no list of PDFs, partial or not, is returned. *)
Theorem getBillPdfs_fails_when_a_request_fails g pelmAccessToken pelmBillIds
    (arrivals : list (nat * fetch_outcome)) :
  NoDup arrivals.*1 ->
  (forall i, i ∈ arrivals.*1 -> i < length pelmBillIds) ->
  Exists (fun arrival => is_Some (failure arrival.2)) arrivals ->
  exists e,
    first_failure arrivals = Some e /\
    (run_joined (getBillPdfs g pelmAccessToken pelmBillIds) arrivals).2 = Rejected e.
Proof.
  intros Hnodup Hrange Hfails.
  destruct (getBillPdfs_tasks g pelmAccessToken pelmBillIds)
    as (tasks & -> & Hlen & Hissued & Hshape).
  pose proof (join_exchanges arrivals tasks Hnodup
                (bill_tasks_await pelmBillIds tasks _ Hlen Hshape Hrange)) as Hjoin.
  destruct (first_failure_some arrivals Hfails) as [e He].
  rewrite He in Hjoin. exists e. split; [exact He |].
  unfold run_joined. rewrite Hjoin; [reflexivity |].
  intros i t Ht. right. apply (Hshape i t Ht).
Qed.

Lemma getBillPdfs_fails_when_a_request_fails_witness :
  exists e,
    first_failure [(2, Resolves (json_response (JString "C")));
                   (0, Rejects (FetchError "socket hang up"))] = Some e /\
    (run_joined (getBillPdfs initial_globals "token" ["a"; "b"; "c"])
                [(2, Resolves (json_response (JString "C")));
                 (0, Rejects (FetchError "socket hang up"))]).2 = Rejected e.
Proof.
  apply (getBillPdfs_fails_when_a_request_fails initial_globals "token" ["a"; "b"; "c"]
           [(2, Resolves (json_response (JString "C")));
            (0, Rejects (FetchError "socket hang up"))]).
  - simpl. apply NoDup_cons. split; [| apply NoDup_singleton].
    intros Hin. apply list_elem_of_singleton in Hin. discriminate Hin.
  - intros i Hin. simpl in *.
    repeat (apply elem_of_cons in Hin as [-> | Hin]; [lia |]).
    inversion Hin.
  - apply Exists_cons_tl, Exists_cons_hd. simpl. eauto.
Defined.

(** C10.  On the empty list of ids [getBillPdfs] issues no request and
    fulfils with the empty array, whatever arrives. *)
Theorem getBillPdfs_of_no_id g pelmAccessToken (arrivals : list (nat * fetch_outcome)) :
  run_joined (getBillPdfs g pelmAccessToken []) arrivals = ([], Fulfilled []).
Proof. destruct arrivals; reflexivity. Qed.

(* ===================================================================== *)
(** ** Credential headers *)
(* ===================================================================== *)

Section Credentials.
Variables apiClientId apiSecret : string.

#[local] Abbreviation g := (assigned apiClientId apiSecret) (only parsing).
#[local] Abbreviation with_credentials :=
  (carries_credentials apiClientId apiSecret) (only parsing).










End Credentials.



(* ===================================================================== *)
(** ** Further properties: the two HTTP primitives *)
(* ===================================================================== *)

Lemma run_bind_assoc {A B C : Type} (p : prog A) (f : A -> prog B) (h : B -> prog C)
    outcomes :
  run (bind (bind p f) h) outcomes = run (bind p (fun a => bind (f a) h)) outcomes.
Proof.
  revert outcomes. induction p as [a | e | req k IH | library]; intros outcomes; simpl.
  - reflexivity.
  - reflexivity.
  - destruct outcomes as [| o outcomes]; [reflexivity |].
    rewrite IH. reflexivity.
  - reflexivity.
Qed.

(** A task that starts with a POST exchange: the exchange decides whether
    the rest runs. *)
Lemma run_bind_postRequest {B : Type} url body headers formData
    (f : json -> prog B) o later :
  form_of body = Some formData ->
  run (bind (postRequest url body headers) f) (o :: later)
  = match outcome_json o with
    | inl e => ([post_request url formData headers], Rejected e)
    | inr j => (post_request url formData headers :: (run (f j) later).1,
                (run (f j) later).2)
    end.
Proof.
  intros Hform. unfold postRequest. rewrite Hform.
  unfold fetch, response_json.
  destruct o as [e | response]; simpl; [reflexivity |].
  destruct (json_body response) as [e | j]; simpl; [reflexivity |].
  destruct (run (f j) later). reflexivity.
Qed.

Lemma run_bind_getRequest {B : Type} url headers (f : json -> prog B) o later :
  run (bind (getRequest url headers) f) (o :: later)
  = match outcome_json o with
    | inl e => ([get_request url headers], Rejected e)
    | inr j => (get_request url headers :: (run (f j) later).1,
                (run (f j) later).2)
    end.
Proof.
  unfold getRequest, fetch, response_json.
  destruct o as [e | response]; simpl; [reflexivity |].
  destruct (json_body response) as [e | j]; simpl; [reflexivity |].
  destruct (run (f j) later). reflexivity.
Qed.

(** X1.  For a body whose values are strings, [postRequest] issues exactly
    one request, a POST of the URL with the headers it was given, whose form
    entries are the entries of the body in their order, one for one --
    before any answer and whatever the answer is. *)
Theorem postRequest_sends_body_as_form url (fields : list (string * string)) headers
    outcomes :
  (run (postRequest url (string_fields fields) headers) outcomes).1
  = [ {| req_method := POST; req_url := url; req_headers := headers;
         req_body := Some (string_fields fields) |} ].
Proof.
  unfold postRequest. rewrite form_of_string_fields.
  unfold fetch, response_json.
  destruct outcomes as [| [e | response] later]; simpl; try reflexivity.
  destruct (json_body response); reflexivity.
Qed.

(** X2.  The result of [postRequest] (for a body whose values are strings)
    and of [getRequest] is the outcome of the one exchange: the parsed body
    whatever the status of the response, the error of the fetch when it
    rejects, the error of [json()] when the body does not parse.  Nothing is
    retried. *)
Theorem exchange_result_is_outcome url (fields : list (string * string)) headers
    (o : fetch_outcome) later :
  run (postRequest url (string_fields fields) headers) (o :: later)
  = ([post_request url (string_fields fields) headers], settle (outcome_json o)) /\
  run (getRequest url headers) (o :: later)
  = ([get_request url headers], settle (outcome_json o)).
Proof.
  split.
  - unfold postRequest. rewrite form_of_string_fields.
    unfold fetch, response_json.
    destruct o as [e | response]; simpl; [reflexivity |].
    destruct (json_body response); reflexivity.
  - unfold getRequest, fetch, response_json.
    destruct o as [e | response]; simpl; [reflexivity |].
    destruct (json_body response); reflexivity.
Qed.

(* ===================================================================== *)
(** ** Further properties: the steps of the token pipeline *)
(* ===================================================================== *)

Lemma run_getConnectToken g pelmUserId o later :
  run (getConnectToken g pelmUserId) (o :: later)
  = ([connect_token_request g pelmUserId],
     match outcome_json o with
     | inl e => Rejected e
     | inr j => settle (property "connect_token" j)
     end).
Proof.
  unfold getConnectToken.
  rewrite (run_bind_postRequest _ [("user_id", str pelmUserId)] _ [("user_id", str pelmUserId)] _ o later eq_refl).
  destruct (outcome_json o) as [e | j]; [reflexivity |].
  destruct (property "connect_token" j); reflexivity.
Qed.

Lemma run_getAuthCode utilityProviderCode username password connectToken bearer
    o later :
  ToString connectToken = inr bearer ->
  run (getAuthCode utilityProviderCode username password connectToken) (o :: later)
  = ([connect_request utilityProviderCode username password bearer],
     match outcome_json o with
     | inl e => Rejected e
     | inr j => settle (property "authorization_code" j)
     end).
Proof.
  intros Htext. unfold getAuthCode. rewrite Htext. cbn [lift bind].
  rewrite (run_bind_postRequest _ [("utility_id", str utilityProviderCode);
              ("username", str username);
              ("password", str password)] _
             [("utility_id", str utilityProviderCode);
              ("username", str username);
              ("password", str password)] _ o later eq_refl).
  destruct (outcome_json o) as [e | j]; [reflexivity |].
  destruct (property "authorization_code" j); reflexivity.
Qed.

Lemma run_getAccessToken g (code : string) o later :
  run (getAccessToken g (str code)) (o :: later)
  = ([token_request g code],
     match outcome_json o with
     | inl e => Rejected e
     | inr j => settle (property "access_token" j)
     end).
Proof.
  unfold getAccessToken.
  rewrite (run_bind_postRequest _ [("code", str code)] _ [("code", str code)] _ o later eq_refl).
  destruct (outcome_json o) as [e | j]; [reflexivity |].
  destruct (property "access_token" j); reflexivity.
Qed.

(** X3.  Each step of the pipeline, called with strings, returns the value
    of its field as the body holds it, of whatever JSON type: nothing checks
    that a token is a string. *)
Theorem token_steps_return_field_as_is
    g (pelmUserId utilityProviderCode username password connectToken authCode : string)
    (response : Response) (fields : gmap string json) (value : json) later :
  json_body response = inr (JObject fields) ->
  (fields !! "connect_token" = Some value ->
   run (getConnectToken g pelmUserId) (Resolves response :: later)
   = ([connect_token_request g pelmUserId], Fulfilled (JsVal value))) /\
  (fields !! "authorization_code" = Some value ->
   run (getAuthCode utilityProviderCode username password (str connectToken))
       (Resolves response :: later)
   = ([connect_request utilityProviderCode username password connectToken],
      Fulfilled (JsVal value))) /\
  (fields !! "access_token" = Some value ->
   run (getAccessToken g (str authCode)) (Resolves response :: later)
   = ([token_request g authCode], Fulfilled (JsVal value))).
Proof.
  intros Hbody. split; [| split]; intros Hfield.
  - rewrite run_getConnectToken. simpl. rewrite Hbody.
    unfold property, own_property. rewrite Hfield. reflexivity.
  - rewrite (run_getAuthCode _ _ _ _ connectToken) by reflexivity.
    simpl. rewrite Hbody.
    unfold property, own_property. rewrite Hfield. reflexivity.
  - rewrite run_getAccessToken. simpl. rewrite Hbody.
    unfold property, own_property. rewrite Hfield. reflexivity.
Qed.

Lemma token_steps_return_field_as_is_witness :
  run (getConnectToken initial_globals "user")
      [Resolves (json_response
                   (JObject {["connect_token" := JNumber (Number.of_Z 7)]}))]
  = ([connect_token_request initial_globals "user"],
     Fulfilled (JsVal (JNumber (Number.of_Z 7)))).
Proof.
  apply (token_steps_return_field_as_is
           initial_globals "user" "utility" "name" "password" "ct" "ac"
           (json_response (JObject {["connect_token" := JNumber (Number.of_Z 7)]}))
           {["connect_token" := JNumber (Number.of_Z 7)]}
           (JNumber (Number.of_Z 7)) [] eq_refl).
  reflexivity.
Defined.

(** X4.  When the body of the response is the JSON value [null], each step
    of the pipeline, called with strings, rejects with the TypeError of the
    property read: a missing token is [undefined], a [null] body is an
    error. *)
Theorem token_steps_reject_null_body
    g (pelmUserId utilityProviderCode username password connectToken authCode : string)
    (response : Response) later :
  json_body response = inr JNull ->
  (exists message,
     run (getConnectToken g pelmUserId) (Resolves response :: later)
     = ([connect_token_request g pelmUserId], Rejected (TypeError message))) /\
  (exists message,
     run (getAuthCode utilityProviderCode username password (str connectToken))
         (Resolves response :: later)
     = ([connect_request utilityProviderCode username password connectToken],
        Rejected (TypeError message))) /\
  (exists message,
     run (getAccessToken g (str authCode)) (Resolves response :: later)
     = ([token_request g authCode], Rejected (TypeError message))).
Proof.
  intros Hbody. split; [| split]; eexists.
  - rewrite run_getConnectToken. simpl. rewrite Hbody. reflexivity.
  - rewrite (run_getAuthCode _ _ _ _ connectToken) by reflexivity.
    simpl. rewrite Hbody. reflexivity.
  - rewrite run_getAccessToken. simpl. rewrite Hbody. reflexivity.
Qed.

Lemma token_steps_reject_null_body_witness :
  exists message,
    run (getAccessToken initial_globals (str "ac")) [Resolves (json_response JNull)]
    = ([token_request initial_globals "ac"], Rejected (TypeError message)).
Proof.
  apply (token_steps_reject_null_body
           initial_globals "user" "utility" "name" "password" "ct" "ac"
           (json_response JNull) [] eq_refl).
Defined.

(** X5.  When the exchange of a step fails -- the fetch rejects or the body
    does not parse -- the step, called with strings, rejects with that very
    error, after its one request. *)
Theorem token_steps_propagate_failure
    g (pelmUserId utilityProviderCode username password connectToken authCode : string)
    (o : fetch_outcome) (e : error) later :
  failure o = Some e ->
  run (getConnectToken g pelmUserId) (o :: later)
  = ([connect_token_request g pelmUserId], Rejected e) /\
  run (getAuthCode utilityProviderCode username password (str connectToken))
      (o :: later)
  = ([connect_request utilityProviderCode username password connectToken],
     Rejected e) /\
  run (getAccessToken g (str authCode)) (o :: later)
  = ([token_request g authCode], Rejected e).
Proof.
  unfold failure. intros Hfail.
  rewrite run_getConnectToken, run_getAccessToken.
  rewrite (run_getAuthCode _ _ _ _ connectToken) by reflexivity.
  destruct (outcome_json o) as [e' | j]; [| discriminate Hfail].
  injection Hfail as ->. auto.
Qed.

Lemma token_steps_propagate_failure_witness :
  run (getConnectToken initial_globals "user")
      [Resolves {| status := 502; json_body := inl (SyntaxError "Unexpected token <") |}]
  = ([connect_token_request initial_globals "user"],
     Rejected (SyntaxError "Unexpected token <")) /\
  run (getAuthCode "utility" "name" "password" (str "ct"))
      [Resolves {| status := 502; json_body := inl (SyntaxError "Unexpected token <") |}]
  = ([connect_request "utility" "name" "password" "ct"],
     Rejected (SyntaxError "Unexpected token <")) /\
  run (getAccessToken initial_globals (str "ac"))
      [Resolves {| status := 502; json_body := inl (SyntaxError "Unexpected token <") |}]
  = ([token_request initial_globals "ac"],
     Rejected (SyntaxError "Unexpected token <")).
Proof.
  apply (token_steps_propagate_failure
           initial_globals "user" "utility" "name" "password" "ct" "ac"
           (Resolves {| status := 502;
                        json_body := inl (SyntaxError "Unexpected token <") |})
           (SyntaxError "Unexpected token <") [] eq_refl).
Defined.

(* ===================================================================== *)
(** ** Further properties: the whole pipeline *)
(* ===================================================================== *)

(** The pipeline after its first exchange. *)
Lemma run_getOrCreatePelmToken g providerCode pelmUserId username password o later :
  run (getOrCreatePelmToken g providerCode pelmUserId username password) (o :: later)
  = match outcome_json o with
    | inl e => ([connect_token_request g pelmUserId], Rejected e)
    | inr j =>
        match property "connect_token" j with
        | inl e => ([connect_token_request g pelmUserId], Rejected e)
        | inr connectToken =>
            let rest :=
              run (authCode <- getAuthCode providerCode username password connectToken ;;
                   accessToken <- getAccessToken g authCode ;;
                   Ret accessToken) later in
            (connect_token_request g pelmUserId :: rest.1, rest.2)
        end
    end.
Proof.
  unfold getOrCreatePelmToken, getConnectToken.
  rewrite run_bind_assoc.
  rewrite (run_bind_postRequest _ [("user_id", str pelmUserId)] _ [("user_id", str pelmUserId)] _ o later eq_refl).
  destruct (outcome_json o) as [e | j]; [reflexivity |].
  destruct (property "connect_token" j) as [e | connectToken]; reflexivity.
Qed.

(** The pipeline from its second step on, after the exchange of that step. *)
Lemma run_from_getAuthCode g providerCode username password connectToken bearer
    o later :
  ToString connectToken = inr bearer ->
  run (authCode <- getAuthCode providerCode username password connectToken ;;
       accessToken <- getAccessToken g authCode ;;
       Ret accessToken) (o :: later)
  = match outcome_json o with
    | inl e => ([connect_request providerCode username password bearer],
                Rejected e)
    | inr j =>
        match property "authorization_code" j with
        | inl e => ([connect_request providerCode username password bearer],
                    Rejected e)
        | inr authCode =>
            let rest :=
              run (accessToken <- getAccessToken g authCode ;; Ret accessToken) later in
            (connect_request providerCode username password bearer :: rest.1,
             rest.2)
        end
    end.
Proof.
  intros Htext. unfold getAuthCode. rewrite Htext. cbn [lift bind].
  rewrite run_bind_assoc.
  rewrite (run_bind_postRequest _ [("utility_id", str providerCode);
              ("username", str username);
              ("password", str password)] _
             [("utility_id", str providerCode);
              ("username", str username);
              ("password", str password)] _ o later eq_refl).
  destruct (outcome_json o) as [e | j]; [reflexivity |].
  destruct (property "authorization_code" j) as [e | authCode]; reflexivity.
Qed.

Lemma run_from_getAccessToken g (code : string) o later :
  run (accessToken <- getAccessToken g (str code) ;; Ret accessToken) (o :: later)
  = ([token_request g code],
     match outcome_json o with
     | inl e => Rejected e
     | inr j => settle (property "access_token" j)
     end).
Proof.
  unfold getAccessToken.
  rewrite run_bind_assoc.
  rewrite (run_bind_postRequest _ [("code", str code)] _ [("code", str code)] _ o later eq_refl).
  destruct (outcome_json o) as [e | j]; [reflexivity |].
  destruct (property "access_token" j) as [e | accessToken]; reflexivity.
Qed.

(** X6.  [getOrCreatePelmToken] stops at the first exchange that fails and
    rejects with its error: no later step is started.  A failure of the
    first exchange leaves one request issued, of the second two, of the
    third three.  (The connect token that the first body holds is a string,
    or is missing, which makes the bearer "undefined"; the authorization
    code is a string.) *)
Theorem getOrCreatePelmToken_stops_at_first_failure
    g providerCode pelmUserId username password
    (failed : fetch_outcome) (e : error)
    (r1 r2 : Response) (j1 j2 : json) (connectToken : JSValue)
    (bearer authorization_code : string) later :
  failure failed = Some e ->
  connectToken = str bearer \/ (connectToken = undefined /\ bearer = "undefined") ->
  run (getOrCreatePelmToken g providerCode pelmUserId username password)
      (failed :: later)
  = ([connect_token_request g pelmUserId], Rejected e) /\
  (json_body r1 = inr j1 ->
   property "connect_token" j1 = inr connectToken ->
   run (getOrCreatePelmToken g providerCode pelmUserId username password)
       (Resolves r1 :: failed :: later)
   = ([connect_token_request g pelmUserId;
       connect_request providerCode username password bearer],
      Rejected e)) /\
  (json_body r1 = inr j1 ->
   property "connect_token" j1 = inr connectToken ->
   json_body r2 = inr j2 ->
   property "authorization_code" j2 = inr (str authorization_code) ->
   run (getOrCreatePelmToken g providerCode pelmUserId username password)
       (Resolves r1 :: Resolves r2 :: failed :: later)
   = ([connect_token_request g pelmUserId;
       connect_request providerCode username password bearer;
       token_request g authorization_code],
      Rejected e)).
Proof.
  unfold failure. intros Hfail Htoken.
  assert (ToString connectToken = inr bearer) as Htext.
  { destruct Htoken as [-> | [-> ->]]; reflexivity. }
  destruct (outcome_json failed) as [e' | j] eqn:Hfailed; [| discriminate Hfail].
  injection Hfail as ->.
  split; [| split].
  - rewrite run_getOrCreatePelmToken, Hfailed. reflexivity.
  - intros Hb1 Hf1.
    rewrite run_getOrCreatePelmToken. simpl outcome_json. rewrite Hb1, Hf1.
    rewrite (run_from_getAuthCode _ _ _ _ _ bearer _ _ Htext), Hfailed. reflexivity.
  - intros Hb1 Hf1 Hb2 Hf2.
    rewrite run_getOrCreatePelmToken. simpl outcome_json. rewrite Hb1, Hf1.
    rewrite (run_from_getAuthCode _ _ _ _ _ bearer _ _ Htext).
    simpl outcome_json. rewrite Hb2, Hf2.
    rewrite run_from_getAccessToken, Hfailed. reflexivity.
Qed.

Lemma getOrCreatePelmToken_stops_at_first_failure_witness :
  run (getOrCreatePelmToken initial_globals "utility" "user" "name" "password")
      [Resolves (json_response (JObject {["connect_token" := JString "ct"]}));
       Rejects (FetchError "ECONNRESET");
       Resolves (json_response (JObject {["access_token" := JString "at"]}))]
  = ([connect_token_request initial_globals "user";
      connect_request "utility" "name" "password" "ct"],
     Rejected (FetchError "ECONNRESET")).
Proof.
  apply (getOrCreatePelmToken_stops_at_first_failure
           initial_globals "utility" "user" "name" "password"
           (Rejects (FetchError "ECONNRESET")) (FetchError "ECONNRESET")
           (json_response (JObject {["connect_token" := JString "ct"]}))
           (json_response JNull)
           (JObject {["connect_token" := JString "ct"]}) JNull
           (str "ct") "ct" "ac"
           [Resolves (json_response (JObject {["access_token" := JString "at"]}))]
           eq_refl (or_introl eq_refl));
    reflexivity.
Defined.

(** X7.  When the body of the first response is an object without
    [connect_token], [getOrCreatePelmToken] goes on all the same: its second
    request is the connect request whose authorization is the text
    "Bearer undefined". *)
Theorem getOrCreatePelmToken_sends_undefined_token
    g providerCode pelmUserId username password
    (response : Response) (fields : gmap string json) later :
  json_body response = inr (JObject fields) ->
  fields !! "connect_token" = None ->
  exists second rest,
    (run (getOrCreatePelmToken g providerCode pelmUserId username password)
         (Resolves response :: later)).1
    = connect_token_request g pelmUserId :: second :: rest /\
    req_url second = "https://api.pelm.com/connect" /\
    header "authorization" second = Some (str "Bearer undefined").
Proof.
  intros Hbody Hnone.
  rewrite run_getOrCreatePelmToken. simpl outcome_json.
  rewrite Hbody, (property_missing _ _ Hnone). cbv zeta.
  destruct later as [| o later].
  - exists (connect_request providerCode username password "undefined"), [].
    split; [| split]; reflexivity.
  - rewrite (run_from_getAuthCode _ _ _ _ undefined "undefined" _ _ eq_refl).
    destruct (outcome_json o) as [e | j].
    + exists (connect_request providerCode username password "undefined"), [].
      split; [| split]; reflexivity.
    + destruct (property "authorization_code" j) as [e | authCode].
      * exists (connect_request providerCode username password "undefined"), [].
        split; [| split]; reflexivity.
      * eexists (connect_request providerCode username password "undefined"), _.
        split; [| split]; reflexivity.
Qed.

Lemma getOrCreatePelmToken_sends_undefined_token_witness :
  exists second rest,
    (run (getOrCreatePelmToken initial_globals "utility" "user" "name" "password")
         [Resolves (json_response (JObject ∅))]).1
    = connect_token_request initial_globals "user" :: second :: rest /\
    req_url second = "https://api.pelm.com/connect" /\
    header "authorization" second = Some (str "Bearer undefined").
Proof.
  apply (getOrCreatePelmToken_sends_undefined_token
           initial_globals "utility" "user" "name" "password"
           (json_response (JObject ∅)) ∅ []);
    reflexivity.
Defined.

Section AtMost.
Context {A B : Type}.



End AtMost.






(* ===================================================================== *)
(** ** Further properties: accounts, bills and intervals *)
(* ===================================================================== *)

(** X9.  [getPelmAccounts], [getBillsPelm] and [getPelmIntervals] each make
    one GET and hand back the parsed body as it is, whatever its shape and
    whatever the status of the response; when the exchange fails they reject
    with its error. *)
Theorem accessors_return_body_as_is g pelmAccessToken pelmAccountId startDate endDate
    (o : fetch_outcome) later :
  run (getPelmAccounts g pelmAccessToken) (o :: later)
  = ([ {| req_method := GET;
          req_url := "https://api.pelm.com/accounts";
          req_headers := [("Authorization", str ("Bearer " +:+ pelmAccessToken));
                          ("Pelm-Client-Id", pelmClientId g);
                          ("Pelm-Secret", pelmSecret g)];
          req_body := None |} ],
     settle (outcome_json o)) /\
  run (getBillsPelm g pelmAccessToken) (o :: later)
  = ([ {| req_method := GET;
          req_url := "https://api.pelm.com/bills";
          req_headers := [("Authorization", str ("Bearer " +:+ pelmAccessToken));
                          ("Pelm-Client-Id", pelmClientId g);
                          ("Pelm-Secret", pelmSecret g)];
          req_body := None |} ],
     settle (outcome_json o)) /\
  run (getPelmIntervals g pelmAccountId pelmAccessToken startDate endDate) (o :: later)
  = ([intervals_request g pelmAccountId pelmAccessToken
        (Number.toString (unix_seconds startDate))
        (Number.toString (unix_seconds endDate))],
     settle (outcome_json o)).
Proof.
  split; [| split].
  - unfold getPelmAccounts. rewrite run_bind_getRequest.
    destruct (outcome_json o); reflexivity.
  - unfold getBillsPelm. rewrite run_bind_getRequest.
    destruct (outcome_json o); reflexivity.
  - unfold getPelmIntervals.
    destruct o as [e | response]; simpl; [reflexivity |].
    unfold response_json. destruct (json_body response); reflexivity.
Qed.

(** X10.  A date whose time value is falsy -- the epoch itself (0), or an
    invalid date (NaN) -- is treated as if no date had been given:
    [getPelmIntervals] is then the very same call as without that date. *)
Theorem getPelmIntervals_falsy_date_is_absent g pelmAccountId pelmToken
    (date : Date) (other : option Date) :
  Number.truthy (getTime date) = false ->
  getPelmIntervals g pelmAccountId pelmToken (Some date) other
  = getPelmIntervals g pelmAccountId pelmToken None other /\
  getPelmIntervals g pelmAccountId pelmToken other (Some date)
  = getPelmIntervals g pelmAccountId pelmToken other None.
Proof.
  intros Hfalsy.
  assert (unix_seconds (Some date) = unix_seconds None) as Heq.
  { unfold unix_seconds. simpl. rewrite Hfalsy. reflexivity. }
  unfold getPelmIntervals. rewrite Heq. split; reflexivity.
Qed.

Lemma getPelmIntervals_falsy_date_is_absent_witness :
  getPelmIntervals initial_globals "account" "token"
                   (Some {| getTime := Number.of_Z 0 |}) None
  = getPelmIntervals initial_globals "account" "token" None None /\
  getPelmIntervals initial_globals "account" "token"
                   None (Some {| getTime := Number.of_Z 0 |})
  = getPelmIntervals initial_globals "account" "token" None None.
Proof.
  apply (getPelmIntervals_falsy_date_is_absent initial_globals "account" "token"
           {| getTime := Number.of_Z 0 |} None eq_refl).
Defined.

(* ===================================================================== *)
(** ** Further properties: bill PDFs *)
(* ===================================================================== *)

Lemma bill_tasks_are_exchanges (tasks : list (prog json)) :
  (forall i t, tasks !! i = Some t ->
     exists req k, t = Fetch req k /\ forall o, k o = lift (outcome_json o)) ->
  Forall exchange_task tasks.
Proof.
  intros Hshape. apply Forall_lookup. intros i t Ht.
  right. right. apply (Hshape i t Ht).
Qed.

Lemma deliver_exchange_tasks (tasks : list (prog json)) i o :
  Forall exchange_task tasks ->
  (deliver i o tasks).1 = [] /\
  Forall exchange_task (deliver i o tasks).2 /\
  length (deliver i o tasks).2 = length tasks.
Proof.
  intros Htasks. unfold deliver.
  destruct (tasks !! i) as [[a | e | req k | library] |] eqn:Hi; simpl; auto.
  apply (Forall_lookup_1 _ _ _ _ Htasks) in Hi as Ht.
  destruct Ht as [[a Ha] | [[e He] | (req' & k' & Heq & Hk)]];
    [discriminate | discriminate |].
  injection Heq as <- <-. rewrite Hk.
  split; [| split].
  - destruct (outcome_json o); reflexivity.
  - apply Forall_insert; [exact Htasks |].
    destruct (outcome_json o) as [e | j]; simpl.
    + right. left. eauto.
    + left. eauto.
  - apply length_insert.
Qed.

(** Resumed exchanges issue nothing new. *)
Lemma join_exchanges_issue_nothing (arrivals : list (nat * fetch_outcome)) :
  forall tasks : list (prog json),
  Forall exchange_task tasks -> (join tasks arrivals).1 = [].
Proof.
  induction arrivals as [| [i o] arrivals IH]; intros tasks Htasks; simpl.
  - destruct (Promise_all_state tasks); reflexivity.
  - destruct (Promise_all_state tasks); [| reflexivity ..].
    destruct (deliver_exchange_tasks tasks i o Htasks) as (Hnew & Htasks' & _).
    destruct (deliver i o tasks) as [new tasks']. simpl in *.
    specialize (IH tasks' Htasks').
    destruct (join tasks' arrivals) as [later result]. simpl in *.
    rewrite Hnew, IH. reflexivity.
Qed.

(** X11.  [getBillPdfs] issues all its requests at once: one GET per bill
    id, in the order of the ids (a repeated id is requested again), before
    anything arrives; and whatever arrives afterwards, in whatever order, no
    further request is made. *)
Theorem getBillPdfs_requests_every_id_at_once g pelmAccessToken pelmBillIds
    (arrivals : list (nat * fetch_outcome)) :
  (run_joined (getBillPdfs g pelmAccessToken pelmBillIds) arrivals).1
  = map (bill_pdf_request g pelmAccessToken) pelmBillIds.
Proof.
  destruct (getBillPdfs_tasks g pelmAccessToken pelmBillIds)
    as (tasks & -> & Hlen & Hissued & Hshape).
  unfold run_joined.
  pose proof (join_exchanges_issue_nothing arrivals tasks
                (bill_tasks_are_exchanges tasks Hshape)) as Hlater.
  destruct (join tasks arrivals) as [later result]. simpl in *.
  rewrite Hlater, Hissued, app_nil_r. reflexivity.
Qed.

Lemma values_length {A : Type} (tasks : list (prog A)) vs :
  values tasks = Some vs -> length vs = length tasks.
Proof.
  revert vs. induction tasks as [| t tasks IH]; intros vs; simpl.
  - intros [= <-]. reflexivity.
  - destruct t as [a | e | req k | library]; [| discriminate ..].
    destruct (values tasks) as [vs' |]; simpl; [| discriminate].
    intros [= <-]. simpl. rewrite (IH vs' eq_refl). reflexivity.
Qed.

Lemma join_fulfils_with_every_value {A : Type} (arrivals : list (nat * fetch_outcome)) :
  forall (tasks : list (prog A)) vs,
  (join tasks arrivals).2 = Fulfilled vs -> length vs = length tasks.
Proof.
  assert (forall (tasks : list (prog A)) vs,
            Promise_all_state tasks = Fulfilled vs -> length vs = length tasks)
    as Hstate.
  { intros tasks vs. unfold Promise_all_state.
    destruct (first_rejection tasks); [discriminate |].
    destruct (values tasks) as [vs' |] eqn:Hvalues; [| discriminate].
    intros [= <-]. apply values_length, Hvalues. }
  induction arrivals as [| [i o] arrivals IH]; intros tasks vs; simpl.
  - destruct (Promise_all_state tasks) as [| vs' | e |] eqn:Hs; simpl;
      [discriminate | | discriminate | discriminate].
    intros [= <-]. apply Hstate, Hs.
  - destruct (Promise_all_state tasks) as [| vs' | e |] eqn:Hs; simpl;
      [| intros [= <-]; apply Hstate, Hs | discriminate | discriminate].
    assert (length (deliver i o tasks).2 = length tasks) as Hlen.
    { unfold deliver. destruct (tasks !! i) as [[a | e | req k | library] |]; simpl;
        try reflexivity. apply length_insert. }
    destruct (deliver i o tasks) as [new tasks']. simpl in Hlen.
    specialize (IH tasks' vs).
    destruct (join tasks' arrivals) as [later result]. simpl in *.
    intros Hresult. rewrite <- Hlen. apply IH, Hresult.
Qed.

(** X12.  Whenever [getBillPdfs] fulfils -- under any arrivals at all -- its
    array has exactly one element per bill id: a shorter, partial array is
    never returned. *)
Theorem getBillPdfs_never_returns_partial_list g pelmAccessToken pelmBillIds
    (arrivals : list (nat * fetch_outcome)) (pdfs : list json) :
  (run_joined (getBillPdfs g pelmAccessToken pelmBillIds) arrivals).2 = Fulfilled pdfs ->
  length pdfs = length pelmBillIds.
Proof.
  destruct (getBillPdfs_tasks g pelmAccessToken pelmBillIds)
    as (tasks & -> & Hlen & _ & _).
  unfold run_joined. intros Hresult. rewrite <- Hlen.
  apply (join_fulfils_with_every_value arrivals).
  destruct (join tasks arrivals). exact Hresult.
Qed.

Lemma getBillPdfs_never_returns_partial_list_witness :
  length [JString "A"; JString "B"] = length ["a"; "b"].
Proof.
  apply (getBillPdfs_never_returns_partial_list initial_globals "token" ["a"; "b"]
           [(1, Resolves (json_response (JString "B")));
            (0, Resolves (json_response (JString "A")))]
           [JString "A"; JString "B"]).
  reflexivity.
Defined.

(** While an exchange is still awaited and none has failed, the join is
    pending. *)
Lemma join_exchanges_pending (arrivals : list (nat * fetch_outcome)) :
  forall tasks : list (prog json),
  NoDup arrivals.*1 ->
  (forall i t, tasks !! i = Some t ->
     (exists a, t = Ret a) \/
     (exists req k, t = Fetch req k /\ forall o, k o = lift (outcome_json o))) ->
  first_failure arrivals = None ->
  (exists i req k, tasks !! i = Some (Fetch req k) /\ i ∉ arrivals.*1) ->
  join tasks arrivals = ([], Pending).
Proof.
  induction arrivals as [| [i o] arrivals IH];
    intros tasks Hnodup Hshape Hnone (n & req & k & Hn & Hnot).
  - assert (forall t e, t ∈ tasks -> t <> Throw e) as Hno.
    { intros t e Hin ->. apply list_elem_of_lookup in Hin as [m Hm].
      destruct (Hshape m _ Hm) as [[a Ha] | (req' & k' & Hf & _)]; discriminate. }
    simpl. rewrite (Promise_all_pending tasks n req k Hno Hn). reflexivity.
  - assert (forall t e, t ∈ tasks -> t <> Throw e) as Hno.
    { intros t e Hin ->. apply list_elem_of_lookup in Hin as [m Hm].
      destruct (Hshape m _ Hm) as [[a Ha] | (req' & k' & Hf & _)]; discriminate. }
    rewrite fmap_cons in Hnodup, Hnot. simpl in Hnodup, Hnot.
    apply NoDup_cons in Hnodup as [Hfresh Hnodup].
    apply not_elem_of_cons in Hnot as [Hne Hnot].
    simpl in Hnone. unfold failure in Hnone.
    destruct (outcome_json o) as [e | j] eqn:Ho; [discriminate Hnone |].
    simpl. rewrite (Promise_all_pending tasks n req k Hno Hn).
    assert (deliver i o tasks = ([], tasks) \/
            deliver i o tasks = ([], <[i := Ret j]> tasks)) as Hdeliver.
    { unfold deliver.
      destruct (tasks !! i) as [[a | e | req' k' | library] |] eqn:Hi; auto.
      destruct (Hshape i _ Hi) as [[a Ha] | (req0 & k0 & Heq & Hk)]; [discriminate |].
      injection Heq as <- <-. rewrite Hk, Ho. simpl. auto. }
    destruct Hdeliver as [-> | ->].
    + rewrite (IH tasks Hnodup Hshape Hnone); [reflexivity |].
      exists n, req, k. split; assumption.
    + rewrite (IH (<[i := Ret j]> tasks) Hnodup); [reflexivity | | exact Hnone |].
      * intros m t. destruct (decide (m = i)) as [-> | Hmi].
        -- intros Hm. apply list_lookup_insert_Some in Hm as [(_ & <- & _) | (? & _)];
             [left; eauto | congruence].
        -- rewrite list_lookup_insert_ne by congruence. apply Hshape.
      * exists n, req, k. split; [| exact Hnot].
        rewrite list_lookup_insert_ne by congruence. exact Hn.
Qed.

(** X13.  As long as no exchange has failed and some bill's request is still
    unanswered, the promise of [getBillPdfs] is pending: the answers already
    there are not handed out before the last one is in. *)
Theorem getBillPdfs_waits_for_every_answer g pelmAccessToken pelmBillIds
    (arrivals : list (nat * fetch_outcome)) (unanswered : nat) :
  NoDup arrivals.*1 ->
  first_failure arrivals = None ->
  unanswered < length pelmBillIds ->
  unanswered ∉ arrivals.*1 ->
  run_joined (getBillPdfs g pelmAccessToken pelmBillIds) arrivals
  = (map (bill_pdf_request g pelmAccessToken) pelmBillIds, Pending).
Proof.
  intros Hnodup Hnone Hlt Hnot.
  destruct (getBillPdfs_tasks g pelmAccessToken pelmBillIds)
    as (tasks & -> & Hlen & Hissued & Hshape).
  unfold run_joined. rewrite (join_exchanges_pending arrivals tasks Hnodup).
  - rewrite Hissued, app_nil_r. reflexivity.
  - intros i t Ht. right. apply (Hshape i t Ht).
  - exact Hnone.
  - rewrite <- Hlen in Hlt. apply lookup_lt_is_Some in Hlt as [t Ht].
    destruct (Hshape unanswered t Ht) as (req & k & -> & _).
    exists unanswered, req, k. split; assumption.
Qed.

Lemma getBillPdfs_waits_for_every_answer_witness :
  run_joined (getBillPdfs initial_globals "token" ["a"; "b"; "c"])
             [(2, Resolves (json_response (JString "C")));
              (0, Resolves (json_response (JString "A")))]
  = (map (bill_pdf_request initial_globals "token") ["a"; "b"; "c"], Pending).
Proof.
  apply (getBillPdfs_waits_for_every_answer initial_globals "token" ["a"; "b"; "c"]
           [(2, Resolves (json_response (JString "C")));
            (0, Resolves (json_response (JString "A")))] 1).
  - simpl. apply NoDup_cons. split; [| apply NoDup_singleton].
    intros Hin. apply list_elem_of_singleton in Hin. discriminate Hin.
  - reflexivity.
  - simpl. lia.
  - simpl. intros Hin.
    repeat (apply elem_of_cons in Hin as [Hin | Hin]; [discriminate Hin |]).
    inversion Hin.
Defined.

(* ===================================================================== *)
(** ** Further properties: usage totals *)
(* ===================================================================== *)

Lemma add_nan (x y : number) :
  Number.is_nan x = true \/ Number.is_nan y = true ->
  Number.is_nan (Number.add x y) = true.
Proof.
  intros [Hx | Hy].
  - destruct x; try discriminate Hx. reflexivity.
  - destruct y; try discriminate Hy. destruct x; reflexivity.
Qed.

Lemma sum_from_nan (xs : list number) (start : number) :
  Number.is_nan start = true \/ Exists (fun x => Number.is_nan x = true) xs ->
  Number.is_nan (sum_from start xs) = true.
Proof.
  revert start. induction xs as [| x xs IH]; intros start [Hstart | Hxs]; simpl.
  - exact Hstart.
  - inversion Hxs.
  - apply IH. left. apply add_nan. left. exact Hstart.
  - apply IH. apply Exists_cons in Hxs as [Hx | Hxs].
    + left. apply add_nan. right. exact Hx.
    + right. exact Hxs.
Qed.

(** X15.  One interval whose usage is NaN makes the total usage NaN,
    wherever it stands in the list and whatever the other usages are; and
    likewise for the emissions. *)
Theorem totalUsageIntervals_nan_poisons_total
    (accountsAndIntervals : PelmTypes.IntervalsResponse) outcomes :
  exists total,
    run (totalUsageIntervals accountsAndIntervals) outcomes = ([], Fulfilled total) /\
    (Exists (fun interval => Number.is_nan (PelmTypes.usage interval) = true)
            (PelmTypes.intervals accountsAndIntervals) ->
     Number.is_nan (totalUsage total) = true) /\
    (Exists (fun interval => Number.is_nan (PelmTypes.ghg_emissions interval) = true)
            (PelmTypes.intervals accountsAndIntervals) ->
     Number.is_nan (totalEmissions total) = true).
Proof.
  eexists. split; [reflexivity |]. simpl.
  rewrite !reduce_add_sum_from.
  split; intros Hnan; apply sum_from_nan; right; apply Exists_fmap; exact Hnan.
Qed.

Lemma totalUsageIntervals_nan_poisons_total_witness :
  exists total,
    run (totalUsageIntervals
           {| PelmTypes.utility := "PGE";
              PelmTypes.account :=
                {| PelmTypes.id := "1"; PelmTypes.account_number := "17";
                   PelmTypes.address := "1 Main St";
                   PelmTypes.available_meter_types := ["ELECTRIC"];
                   PelmTypes.usage_unit := PelmTypes.kwh;
                   PelmTypes.gas_usage_unit := PelmTypes.gas_therm;
                   PelmTypes.ghg_emission_unit := PelmTypes.kg_co2 |};
              PelmTypes.intervals :=
                [ {| PelmTypes.start := {| getTime := Number.of_Z 0 |};
                     PelmTypes.end_ := {| getTime := Number.of_Z 900000 |};
                     PelmTypes.usage := Number.of_Z 3;
                     PelmTypes.ghg_emissions := Number.of_Z 1 |};
                  {| PelmTypes.start := {| getTime := Number.of_Z 900000 |};
                     PelmTypes.end_ := {| getTime := Number.of_Z 1800000 |};
                     PelmTypes.usage := Number.NaN;
                     PelmTypes.ghg_emissions := Number.of_Z 1 |} ] |}) []
    = ([], Fulfilled total) /\
    Number.is_nan (totalUsage total) = true.
Proof.
  destruct (totalUsageIntervals_nan_poisons_total
              {| PelmTypes.utility := "PGE";
                 PelmTypes.account :=
                   {| PelmTypes.id := "1"; PelmTypes.account_number := "17";
                      PelmTypes.address := "1 Main St";
                      PelmTypes.available_meter_types := ["ELECTRIC"];
                      PelmTypes.usage_unit := PelmTypes.kwh;
                      PelmTypes.gas_usage_unit := PelmTypes.gas_therm;
                      PelmTypes.ghg_emission_unit := PelmTypes.kg_co2 |};
                 PelmTypes.intervals :=
                   [ {| PelmTypes.start := {| getTime := Number.of_Z 0 |};
                        PelmTypes.end_ := {| getTime := Number.of_Z 900000 |};
                        PelmTypes.usage := Number.of_Z 3;
                        PelmTypes.ghg_emissions := Number.of_Z 1 |};
                     {| PelmTypes.start := {| getTime := Number.of_Z 900000 |};
                        PelmTypes.end_ := {| getTime := Number.of_Z 1800000 |};
                        PelmTypes.usage := Number.NaN;
                        PelmTypes.ghg_emissions := Number.of_Z 1 |} ] |} [])
    as (total & Hrun & Husage & _).
  exists total. split; [exact Hrun |].
  apply Husage. apply Exists_cons_tl, Exists_cons_hd. reflexivity.
Defined.

(** X16.  The totals are running totals: adding one interval at the end of
    the list adds its usage to the total usage and its emissions to the
    total emissions, in double arithmetic. *)
Theorem totalUsageIntervals_one_more_interval utility account
    (intervals : list PelmTypes.PelmUsageInterval) (last : PelmTypes.PelmUsageInterval)
    outcomes :
  exists before after,
    run (totalUsageIntervals
           {| PelmTypes.utility := utility; PelmTypes.account := account;
              PelmTypes.intervals := intervals |}) outcomes
    = ([], Fulfilled before) /\
    run (totalUsageIntervals
           {| PelmTypes.utility := utility; PelmTypes.account := account;
              PelmTypes.intervals := intervals ++ [last] |}) outcomes
    = ([], Fulfilled after) /\
    totalUsage after = Number.add (totalUsage before) (PelmTypes.usage last) /\
    totalEmissions after
    = Number.add (totalEmissions before) (PelmTypes.ghg_emissions last).
Proof.
  eexists. eexists. split; [reflexivity |]. split; [reflexivity |].
  simpl. unfold Array_reduce. rewrite !fold_left_app. split; reflexivity.
Qed.

(** X17.  The totals depend on the order of the intervals: there are two
    responses with the same intervals, in a different order, whose total
    usages differ (double addition is not associative). *)
Theorem totalUsageIntervals_depends_on_order :
  exists (first second : PelmTypes.IntervalsResponse) (total1 total2 : TotalUandE),
    PelmTypes.intervals first ≡ₚ PelmTypes.intervals second /\
    run (totalUsageIntervals first) [] = ([], Fulfilled total1) /\
    run (totalUsageIntervals second) [] = ([], Fulfilled total2) /\
    totalUsage total1 <> totalUsage total2.
Proof.
  pose (epoch := {| getTime := Number.of_Z 0 |}).
  pose (interval := fun u : Z =>
          {| PelmTypes.start := epoch; PelmTypes.end_ := epoch;
             PelmTypes.usage := Number.of_Z u;
             PelmTypes.ghg_emissions := Number.of_Z 0 |}).
  pose (response := fun l =>
          {| PelmTypes.utility := "PGE";
             PelmTypes.account :=
               {| PelmTypes.id := "1"; PelmTypes.account_number := "17";
                  PelmTypes.address := "1 Main St";
                  PelmTypes.available_meter_types := ["ELECTRIC"];
                  PelmTypes.usage_unit := PelmTypes.kwh;
                  PelmTypes.gas_usage_unit := PelmTypes.gas_therm;
                  PelmTypes.ghg_emission_unit := PelmTypes.kg_co2 |};
             PelmTypes.intervals := l |}).
  exists (response [interval (2 ^ 53)%Z; interval 1%Z; interval 1%Z]),
         (response [interval 1%Z; interval 1%Z; interval (2 ^ 53)%Z]).
  eexists. eexists.
  split; [| split; [reflexivity | split; [reflexivity |]]].
  - simpl. apply (Permutation_cons_app [_; _] [] _). reflexivity.
  - vm_compute. discriminate.
Qed.
